(** * EduTube Planner: response parsing and the step flow

    A shallow embedding of the parsing helpers of the Gemini service
    ([parseVideoResponse], the post-processing of [analyzeVideoAndSuggest],
    the fallback of [generateLessonPlan]) and of the state handlers of
    [App.tsx] ([handleTopicSubmit], [handleVideoSelect],
    [handleAssessmentSelect], [resetApp], [goBack]), together with the
    properties the specification states about them. *)

From Stdlib Require Import ZArith NArith Strings.String Strings.Ascii.
From stdpp Require Import base option numbers list gmap.

Local Open Scope Z_scope.

(** ** JavaScript strings

    A JavaScript string is a sequence of UTF-16 code units; [length],
    [startsWith], [includes], [split] and [trim] all work on code units. *)

Module JsString.

Abbreviation jsstring := (list N).

(** An ASCII literal of the source, as code units. *)
Definition js (s : string) : jsstring :=
  (λ a, N_of_ascii a) <$> list_ascii_of_string s.

(** [WhiteSpace] and [LineTerminator] of ECMAScript, the characters
    [String.prototype.trim] removes. *)
Definition isWhiteSpace (c : N) : bool :=
  ((9 <=? c) && (c <=? 13) || (c =? 32) || (c =? 160) || (c =? 5760)
   || (8192 <=? c) && (c <=? 8202) || (c =? 8232) || (c =? 8233)
   || (c =? 8239) || (c =? 8287) || (c =? 12288) || (c =? 65279))%N.

Fixpoint trimStart (s : jsstring) : jsstring :=
  match s with
  | c :: s' => if isWhiteSpace c then trimStart s' else s
  | [] => []
  end.

Definition trimEnd (s : jsstring) : jsstring :=
  reverse (trimStart (reverse s)).

Definition trim (s : jsstring) : jsstring := trimEnd (trimStart s).

Fixpoint startsWith (p s : jsstring) : bool :=
  match p, s with
  | [], _ => true
  | a :: p', b :: s' => (a =? b)%N && startsWith p' s'
  | _ :: _, [] => false
  end.

Fixpoint includes (needle s : jsstring) : bool :=
  startsWith needle s ||
  match s with
  | [] => false
  | _ :: s' => includes needle s'
  end.

(** [s.split(sep)] for a one-code-unit separator: [cur] is the piece
    being read, in reverse. *)
Fixpoint split_go (sep : N) (cur : jsstring) (s : jsstring) : list jsstring :=
  match s with
  | [] => [reverse cur]
  | c :: s' =>
      if (c =? sep)%N then reverse cur :: split_go sep [] s'
      else split_go sep (c :: cur) s'
  end.

Definition split (sep : N) (s : jsstring) : list jsstring := split_go sep [] s.

(** [toLowerCase], code unit by code unit.  The ASCII capitals are
    mapped to their small letters; U+0130 becomes [i] followed by the
    combining dot U+0307 and the Kelvin sign U+212A becomes [k].  No
    other character lower-cases to an ASCII letter: the remaining
    mappings of Unicode, which send non-ASCII code units to non-ASCII
    code units, are left as the identity (their only consumer here is a
    comparison with the ASCII word [video]). *)
Definition lowerUnit (c : N) : jsstring :=
  (if (65 <=? c) && (c <=? 90) then [c + 32]
   else if c =? 304 then [105; 775]
   else if c =? 8490 then [107]
   else [c])%N.

Definition toLowerCase (s : jsstring) : jsstring := s ≫= lowerUnit.

(** [Number.prototype.toString] on an integer: decimal digits, with a
    minus sign for a negative number. *)
Fixpoint digits (d : Decimal.uint) : jsstring :=
  match d with
  | Decimal.Nil => []
  | Decimal.D0 d' => 48%N :: digits d'
  | Decimal.D1 d' => 49%N :: digits d'
  | Decimal.D2 d' => 50%N :: digits d'
  | Decimal.D3 d' => 51%N :: digits d'
  | Decimal.D4 d' => 52%N :: digits d'
  | Decimal.D5 d' => 53%N :: digits d'
  | Decimal.D6 d' => 54%N :: digits d'
  | Decimal.D7 d' => 55%N :: digits d'
  | Decimal.D8 d' => 56%N :: digits d'
  | Decimal.D9 d' => 57%N :: digits d'
  end.

Definition toString (n : Z) : jsstring :=
  match Z.to_int n with
  | Decimal.Pos d => digits d
  | Decimal.Neg d => 45%N :: digits d
  end.

(** [s.replace(/^(p1|p2|...)/, '')]: the first alternative that matches
    at the start of [s] is removed; without a match [s] is unchanged. *)
Fixpoint stripPrefix (alts : list jsstring) (s : jsstring) : jsstring :=
  match alts with
  | [] => s
  | p :: alts' => if startsWith p s then drop (length p) s else stripPrefix alts' s
  end.

(** A string is truthy when it is not empty. *)
Definition nonEmpty (s : jsstring) : bool :=
  match s with [] => false | _ :: _ => true end.

End JsString.

Import JsString.

(** ** JSON values

    What [JSON.parse] returns: [null], booleans, numbers, strings, arrays
    and objects.  A number is represented by an integer (the code only
    tests numbers for zero and creates the integers [index + 1]); an
    object is a finite map from property names to values. *)

Module Json.

#[warnings="-register-all"]
Inductive value :=
  | VNull
  | VBool (b : bool)
  | VNum (n : Z)
  | VStr (s : jsstring)
  | VArr (l : list value)
  | VObj (m : gmap jsstring value).

(** A property that is read but missing is [undefined]: [None]. *)
Abbreviation property := (option value).

(** Truthiness, as used by [||]: [undefined], [null], [false], [0] and
    the empty string are falsy; arrays and objects are always truthy. *)
Definition truthy (p : property) : bool :=
  match p with
  | None | Some VNull => false
  | Some (VBool b) => b
  | Some (VNum n) => negb (n =? 0)
  | Some (VStr s) => nonEmpty s
  | Some (VArr _) | Some (VObj _) => true
  end.

(** The own enumerable properties copied by an object spread
    [{...a}]: the properties of an object, the elements of an array and
    the code units of a string under their decimal indices, nothing for
    [null], booleans and numbers. *)
Definition spread (a : value) : gmap jsstring value :=
  match a with
  | VObj m => m
  | VArr l => list_to_map (imap (λ i x, (toString (Z.of_nat i), x)) l)
  | VStr s => list_to_map (imap (λ i c, (toString (Z.of_nat i), VStr [c])) s)
  | VNull | VBool _ | VNum _ => ∅
  end.

(** A property read [v.k] for a data property name [k].  Reading a
    property of [null] throws a [TypeError]: the outer [None].  Arrays
    and strings also have [length].  (Methods inherited from the
    prototypes are not data and are not modelled: the code reads the
    names [assessments] and [summary] only.) *)
Definition get (v : value) (k : jsstring) : option property :=
  match v with
  | VNull => None
  | VObj m => Some (m !! k)
  | VArr l =>
      Some (if decide (k = js "length") then Some (VNum (Z.of_nat (length l)))
            else spread v !! k)
  | VStr s =>
      Some (if decide (k = js "length") then Some (VNum (Z.of_nat (length s)))
            else spread v !! k)
  | VBool _ | VNum _ => Some None
  end.

End Json.

Import Json.

(** ** The Gemini service ([services/geminiService]) *)

Module GeminiService.

(** What [ai.models.generateContent] gives back in text mode: the call
    throws, or it returns a response whose [text] may be [undefined]. *)
Inductive response :=
  | Failed
  | Text (text : option jsstring).

(** The same in JSON mode, with the outcome of [JSON.parse] on the text:
    [NoText] is a response whose [text] is falsy, so that the code parses
    the literal [{}] instead; [Malformed] is a text on which [JSON.parse]
    throws; [Parsed data] a text that parses to [data]. *)
Inductive json_response :=
  | JFailed
  | NoText
  | Malformed
  | Parsed (data : value).

(** A promise that has settled: resolved with a value, or rejected with
    the message of the [Error] thrown. *)
Inductive settled (A : Type) :=
  | Resolved (a : A)
  | Rejected (message : jsstring).
Arguments Resolved {A} a.
Arguments Rejected {A} message.

(** [text || fallback] on an optional string. *)
Definition orElse (text : option jsstring) (fallback : jsstring) : jsstring :=
  match text with
  | Some (c :: s) => c :: s
  | Some [] | None => fallback
  end.

(** *** The video list parser ([parseVideoResponse]) *)

(** [VideoRecommendation] of [types.ts] as it exists at run time.  The
    parser builds a [Partial<VideoRecommendation>] and casts it, so every
    property may be missing: [None] is a property that was never
    assigned ([undefined]). *)
Record VideoRecommendation := mkVideo {
  vid : option Z;
  title : option jsstring;
  channel : option jsstring;
  url : option jsstring;
  description : option jsstring
}.

(** The empty object [{}]. *)
Definition emptyVideo : VideoRecommendation := mkVideo None None None None None.

(** Truthiness of an optional string property: set and not empty. *)
Definition isSet (p : option jsstring) : bool :=
  match p with
  | Some s => nonEmpty s
  | None => false
  end.

(** What the test before each push establishes: title and url are set
    and not empty. *)
Definition complete (v : VideoRecommendation) : Prop :=
  ∃ t u, title v = Some t ∧ t ≠ [] ∧ url v = Some u ∧ u ≠ [].

(** The labels of the four kinds of labelled lines. *)
Definition titleLabels : list jsstring := [js "Title:"; [51228; 47785; 58]%N].
Definition channelLabels : list jsstring := [js "Channel:"; [52292; 45328; 58]%N].
Definition urlLabels : list jsstring := [js "URL:"; js "Link:"; [47553; 53356; 58]%N].
Definition descriptionLabels : list jsstring := [js "Description:"; [49444; 47749; 58]%N].

Definition startsWithAny (labels : list jsstring) (s : jsstring) : bool :=
  existsb (λ p, startsWith p s) labels.

(** The loop variables of [parseVideoResponse]. *)
Record ParserState := mkParser {
  videos : list VideoRecommendation;
  currentVideo : VideoRecommendation;
  counter : Z
}.

(** The test of the first branch of the loop: the line starts a new
    entry. *)
Definition isMarker (counter : Z) (cleanLine : jsstring) : bool :=
  startsWith (js "video") (toLowerCase cleanLine)
  && (includes (toString counter) cleanLine
      || (Z.of_nat (length cleanLine) <? 10)).

(** [{ ...currentVideo, id: n }]. *)
Definition withId (v : VideoRecommendation) (n : Z) : VideoRecommendation :=
  mkVideo (Some n) (title v) (channel v) (url v) (description v).

(** One iteration of the [for] loop. *)
Definition parseLine (st : ParserState) (line : jsstring) : ParserState :=
  let cleanLine := trim line in
  let cur := currentVideo st in
  if isMarker (counter st) cleanLine then
    if isSet (title cur) && isSet (url cur) then
      mkParser (videos st ++ [withId cur (counter st - 1)]) emptyVideo (counter st + 1)
    else
      mkParser (videos st) cur (counter st + 1)
  else if startsWithAny titleLabels cleanLine then
    mkParser (videos st)
      (mkVideo (vid cur) (Some (trim (stripPrefix titleLabels cleanLine)))
         (channel cur) (url cur) (description cur))
      (counter st)
  else if startsWithAny channelLabels cleanLine then
    mkParser (videos st)
      (mkVideo (vid cur) (title cur)
         (Some (trim (stripPrefix channelLabels cleanLine))) (url cur) (description cur))
      (counter st)
  else if startsWithAny urlLabels cleanLine then
    mkParser (videos st)
      (mkVideo (vid cur) (title cur) (channel cur)
         (Some (trim (stripPrefix urlLabels cleanLine))) (description cur))
      (counter st)
  else if startsWithAny descriptionLabels cleanLine then
    mkParser (videos st)
      (mkVideo (vid cur) (title cur) (channel cur) (url cur)
         (Some (trim (stripPrefix descriptionLabels cleanLine))))
      (counter st)
  else st.

(** The push after the loop. *)
Definition flushLast (st : ParserState) : list VideoRecommendation :=
  let cur := currentVideo st in
  if isSet (title cur) && isSet (url cur) then
    videos st ++ [withId cur (counter st - 1)]
  else videos st.

(** [videos.slice(0, 5).map((v, i) => ({...v, id: i + 1}))]. *)
Definition renumber (vs : list VideoRecommendation) : list VideoRecommendation :=
  imap (λ i v, withId v (Z.of_nat i + 1)) (take 5 vs).

Definition parseLines (lines : list jsstring) : ParserState :=
  foldl parseLine (mkParser [] emptyVideo 1) lines.

Definition parseVideoResponse (text : jsstring) : list VideoRecommendation :=
  renumber (flushLast (parseLines (split 10 text))).

(** *** [searchVideos] *)

Definition searchFailedMessage : jsstring :=
  [48708; 46356; 50724; 47484; 32; 44160; 49353; 54616; 45716; 32; 51473; 32;
   50724; 47448; 44032; 32; 48156; 49373; 54664; 49845; 45768; 45796; 46]%N.

Definition searchVideos (r : response) : settled (list VideoRecommendation) :=
  match r with
  | Failed => Rejected searchFailedMessage
  | Text text => Resolved (parseVideoResponse (orElse text []))
  end.

(** *** [analyzeVideoAndSuggest] *)

(** [VideoAnalysis] of [types.ts] at run time: [summary] is whatever
    [data.summary] was, [None] when the property is missing; an
    assessment is the object built by the spread. *)
Record VideoAnalysis := mkAnalysis {
  summary : property;
  assessments : list (gmap jsstring value)
}.

(** [{ ...a, id: index + 1 }]. *)
Definition resequence (index : nat) (a : value) : gmap jsstring value :=
  <[js "id" := VNum (Z.of_nat index + 1)]> (spread a).

(** The statements between [JSON.parse] and the end of the [try] block,
    on the parsed [data]; [None] is a [TypeError] thrown on the way
    (a property read on [null], or [.map] called on something that is
    not an array). *)
Definition parseAnalysis (data : value) : option VideoAnalysis :=
  found ← get data (js "assessments");
  match (if truthy found then found else Some (VArr [])) with
  | Some (VArr l) =>
      s ← get data (js "summary");
      Some (mkAnalysis s (imap resequence l))
  | _ => None
  end.

Definition analysisFailedMessage : jsstring :=
  [48708; 46356; 50724; 32; 48516; 49437; 32; 48143; 32; 49688; 54665; 54217;
   44032; 32; 51228; 50504; 32; 51473; 32; 50724; 47448; 44032; 32; 48156;
   49373; 54664; 49845; 45768; 45796; 46]%N.

Definition analyzeVideoAndSuggest (r : json_response) : settled VideoAnalysis :=
  let parsed :=
    match r with
    | JFailed | Malformed => None
    | NoText => parseAnalysis (VObj ∅)
    | Parsed data => parseAnalysis data
    end in
  match parsed with
  | Some analysis => Resolved analysis
  | None => Rejected analysisFailedMessage
  end.

(** *** [generateLessonPlan] *)

(** The literal returned when the response has no text. *)
Definition planFallback : jsstring :=
  [49688; 50629; 32; 51648; 46020; 50504; 51012; 32; 49373; 49457; 54616;
   51648; 32; 47803; 54664; 49845; 45768; 45796; 46]%N.

Definition planFailedMessage : jsstring :=
  [49688; 50629; 32; 51648; 46020; 50504; 32; 49373; 49457; 32; 51473; 32;
   50724; 47448; 44032; 32; 48156; 49373; 54664; 49845; 45768; 45796; 46]%N.

Definition generateLessonPlan (r : response) : settled jsstring :=
  match r with
  | Failed => Rejected planFailedMessage
  | Text text => Resolved (orElse text planFallback)
  end.

End GeminiService.

(** ** The application state and its handlers ([App.tsx]) *)

Module App.

Import GeminiService.

(** [AppStep] of [types.ts], a numeric enum: a step is a number at run
    time, and [goBack] computes on it. *)
Definition INPUT_TOPIC : Z := 0.
Definition SELECT_VIDEO : Z := 1.
Definition SELECT_ASSESSMENT : Z := 2.
Definition VIEW_PLAN : Z := 3.

Definition isAppStep (n : Z) : Prop :=
  n = INPUT_TOPIC ∨ n = SELECT_VIDEO ∨ n = SELECT_ASSESSMENT ∨ n = VIEW_PLAN.

(** The ten [useState] cells of the component. *)
Record State := mkState {
  step : Z;
  topic : jsstring;
  isLoading : bool;
  error : option jsstring;
  videos : list VideoRecommendation;
  selectedVideo : option VideoRecommendation;
  videoSummary : property;
  assessments : list (gmap jsstring value);
  selectedAssessment : option (gmap jsstring value);
  lessonPlan : jsstring
}.

(** The initial values passed to [useState]. *)
Definition initial : State :=
  mkState INPUT_TOPIC [] false None [] None (Some (VStr [])) [] None [].

(** The setters. *)
Definition setStep (n : Z) (s : State) : State :=
  mkState n (topic s) (isLoading s) (error s) (videos s) (selectedVideo s)
    (videoSummary s) (assessments s) (selectedAssessment s) (lessonPlan s).
Definition setTopic (t : jsstring) (s : State) : State :=
  mkState (step s) t (isLoading s) (error s) (videos s) (selectedVideo s)
    (videoSummary s) (assessments s) (selectedAssessment s) (lessonPlan s).
Definition setIsLoading (b : bool) (s : State) : State :=
  mkState (step s) (topic s) b (error s) (videos s) (selectedVideo s)
    (videoSummary s) (assessments s) (selectedAssessment s) (lessonPlan s).
Definition setError (e : option jsstring) (s : State) : State :=
  mkState (step s) (topic s) (isLoading s) e (videos s) (selectedVideo s)
    (videoSummary s) (assessments s) (selectedAssessment s) (lessonPlan s).
Definition setVideos (vs : list VideoRecommendation) (s : State) : State :=
  mkState (step s) (topic s) (isLoading s) (error s) vs (selectedVideo s)
    (videoSummary s) (assessments s) (selectedAssessment s) (lessonPlan s).
Definition setSelectedVideo (v : option VideoRecommendation) (s : State) : State :=
  mkState (step s) (topic s) (isLoading s) (error s) (videos s) v
    (videoSummary s) (assessments s) (selectedAssessment s) (lessonPlan s).
Definition setVideoSummary (p : property) (s : State) : State :=
  mkState (step s) (topic s) (isLoading s) (error s) (videos s) (selectedVideo s)
    p (assessments s) (selectedAssessment s) (lessonPlan s).
Definition setAssessments (l : list (gmap jsstring value)) (s : State) : State :=
  mkState (step s) (topic s) (isLoading s) (error s) (videos s) (selectedVideo s)
    (videoSummary s) l (selectedAssessment s) (lessonPlan s).
Definition setSelectedAssessment (a : option (gmap jsstring value)) (s : State) : State :=
  mkState (step s) (topic s) (isLoading s) (error s) (videos s) (selectedVideo s)
    (videoSummary s) (assessments s) a (lessonPlan s).
Definition setLessonPlan (p : jsstring) (s : State) : State :=
  mkState (step s) (topic s) (isLoading s) (error s) (videos s) (selectedVideo s)
    (videoSummary s) (assessments s) (selectedAssessment s) p.

(** Setter calls in the order of the source: [s |> f |> g] is [g (f s)]. *)
Notation "s |> f" := (f s) (at level 45, left associativity, only parsing).

(** The messages stored by the handlers. *)
Definition noResultsMessage : jsstring :=
  [44288; 47144; 32; 50689; 49345; 51012; 32; 52286; 51012; 32; 49688; 32;
   50630; 49845; 45768; 45796; 46; 32; 45796; 47480; 32; 51452; 51228; 47196;
   32; 49884; 46020; 54644; 48372; 49464; 50836; 46]%N.
Definition searchErrorMessage : jsstring :=
  [48708; 46356; 50724; 32; 44160; 49353; 32; 51473; 32; 50724; 47448; 44032;
   32; 48156; 49373; 54664; 49845; 45768; 45796; 46; 32; 51104; 49884; 32;
   54980; 32; 45796; 49884; 32; 49884; 46020; 54644; 51452; 49464; 50836; 46]%N.
Definition analysisErrorMessage : jsstring :=
  [50689; 49345; 32; 48516; 49437; 50640; 32; 49892; 54056; 54664; 49845;
   45768; 45796; 46]%N.
Definition planErrorMessage : jsstring :=
  [49688; 50629; 32; 51648; 46020; 50504; 32; 49373; 49457; 50640; 32; 49892;
   54056; 54664; 49845; 45768; 45796; 46]%N.

(** Each handler that awaits the service takes what the collaborator
    answered as an argument and is one transition: the state before the
    call, the state once the promise has settled and [finally] has run. *)

Definition handleTopicSubmit (r : response) (s : State) : State :=
  if negb (nonEmpty (trim (topic s))) then s
  else
    let s := s |> setIsLoading true |> setError None in
    let s :=
      match searchVideos r with
      | Resolved results =>
          if decide (length results = 0%nat)
          then s |> setError (Some noResultsMessage)
          else s |> setVideos results |> setStep SELECT_VIDEO
      | Rejected _ => s |> setError (Some searchErrorMessage)
      end in
    s |> setIsLoading false.

Definition handleVideoSelect (r : json_response) (s : State) : State :=
  match selectedVideo s with
  | None => s
  | Some _ =>
      let s := s |> setIsLoading true |> setError None in
      let s :=
        match analyzeVideoAndSuggest r with
        | Resolved result =>
            s |> setVideoSummary (GeminiService.summary result)
              |> setAssessments (GeminiService.assessments result)
              |> setStep SELECT_ASSESSMENT
        | Rejected _ => s |> setError (Some analysisErrorMessage)
        end in
      s |> setIsLoading false
  end.

Definition handleAssessmentSelect (r : response) (s : State) : State :=
  match selectedAssessment s, selectedVideo s with
  | Some _, Some _ =>
      let s := s |> setIsLoading true |> setError None in
      let s :=
        match generateLessonPlan r with
        | Resolved plan => s |> setLessonPlan plan |> setStep VIEW_PLAN
        | Rejected _ => s |> setError (Some planErrorMessage)
        end in
      s |> setIsLoading false
  | _, _ => s
  end.

(** [confirmed] is the answer of the [confirm] dialog. *)
Definition resetApp (confirmed : bool) (s : State) : State :=
  if confirmed then
    s |> setStep INPUT_TOPIC
      |> setTopic []
      |> setVideos []
      |> setSelectedVideo None
      |> setAssessments []
      |> setSelectedAssessment None
      |> setLessonPlan []
      |> setError None
  else s.

Definition goBack (s : State) : State :=
  let s' := s |> setError None in
  if 0 <? step s then s' |> setStep (step s - 1) else s'.

(** *** The events of the user interface

    What the rendered screen lets the user do.  A card is identified by
    its position in the list that is shown. *)
Inductive event :=
  | TypeTopic (t : jsstring)
  | SubmitTopic (r : response)
  | SelectVideo (i : nat)
  | ConfirmVideo (r : json_response)
  | SelectAssessment (i : nat)
  | ConfirmAssessment (r : response)
  | GoBack
  | Reset (confirmed : bool)
  | DismissError.

(** Which controls are on the screen.  The header button that resets is
    rendered when [step > INPUT_TOPIC]; the error banner when there is an
    error; the rest only when nothing is loading: the topic form on
    [INPUT_TOPIC], the video cards, Back and Next on [SELECT_VIDEO], the
    assessment cards, Back and Next on [SELECT_ASSESSMENT] (Next is
    disabled without a selection), and no Back button on [VIEW_PLAN]. *)
Definition enabled (s : State) (e : event) : bool :=
  match e with
  | TypeTopic _ | SubmitTopic _ =>
      negb (isLoading s) && bool_decide (step s = INPUT_TOPIC)
  | SelectVideo i =>
      negb (isLoading s) && bool_decide (step s = SELECT_VIDEO)
      && bool_decide (is_Some (videos s !! i))
  | ConfirmVideo _ =>
      negb (isLoading s) && bool_decide (step s = SELECT_VIDEO)
      && bool_decide (is_Some (selectedVideo s))
  | SelectAssessment i =>
      negb (isLoading s) && bool_decide (step s = SELECT_ASSESSMENT)
      && bool_decide (is_Some (assessments s !! i))
  | ConfirmAssessment _ =>
      negb (isLoading s) && bool_decide (step s = SELECT_ASSESSMENT)
      && bool_decide (is_Some (selectedAssessment s))
  | GoBack =>
      negb (isLoading s)
      && (bool_decide (step s = SELECT_VIDEO) || bool_decide (step s = SELECT_ASSESSMENT))
  | Reset _ => bool_decide (INPUT_TOPIC < step s)
  | DismissError => bool_decide (is_Some (error s))
  end.

(** The handler bound to each control. *)
Definition handle (e : event) (s : State) : State :=
  match e with
  | TypeTopic t => setTopic t s
  | SubmitTopic r => handleTopicSubmit r s
  | SelectVideo i => setSelectedVideo (videos s !! i) s
  | ConfirmVideo r => handleVideoSelect r s
  | SelectAssessment i => setSelectedAssessment (assessments s !! i) s
  | ConfirmAssessment r => handleAssessmentSelect r s
  | GoBack => goBack s
  | Reset confirmed => resetApp confirmed s
  | DismissError => setError None s
  end.

(** A session in which every request has settled before the next event:
    the events in the order they happen; [None] when an event is not
    offered by the screen it is sent to.  What can happen while a
    request is pending is in [Live] below, of whose sessions these are
    a part. *)
Fixpoint run (s : State) (events : list event) : option State :=
  match events with
  | [] => Some s
  | e :: events' => if enabled s e then run (handle e s) events' else None
  end.

(** *** The invariant of the specification *)

(** Membership by [id]. *)
Definition videoListed (v : VideoRecommendation) (l : list VideoRecommendation) : Prop :=
  ∃ c, c ∈ l ∧ vid c = vid v.
Definition assessmentListed (a : gmap jsstring value) (l : list (gmap jsstring value)) : Prop :=
  ∃ c, c ∈ l ∧ c !! js "id" = a !! js "id".

Definition selectedVideoListed (s : State) : Prop :=
  ∀ v, selectedVideo s = Some v → videoListed v (videos s).
Definition selectedAssessmentListed (s : State) : Prop :=
  ∀ a, selectedAssessment s = Some a → assessmentListed a (assessments s).
Definition planOnlyAtEnd (s : State) : Prop :=
  lessonPlan s ≠ [] → step s = VIEW_PLAN.

Definition invariant (s : State) : Prop :=
  selectedVideoListed s ∧ selectedAssessmentListed s ∧ planOnlyAtEnd s.

End App.

(** ** Sessions with pending requests

    A handler that awaits the service runs in two parts: what comes
    before [await], at the click, and what comes after it, when the
    promise settles.  In between the loader replaces the screen, but the
    header button that resets stays (it is rendered outside the
    [isLoading] branch), [resetApp] cancels nothing, and the setters
    after [await] run on whatever the state is by then. *)

Module Live.

Import GeminiService App.

(** The requests a handler can be waiting for. *)
Inductive request := Search | Analysis | Plan.

#[global] Instance request_eq_dec : EqDecision request.
Proof. solve_decision. Defined.

(** The cells of the component and the requests that have not settled. *)
Record Session := mkSession {
  cells : State;
  pending : list request
}.

Definition initial : Session := mkSession App.initial [].

(** The handlers up to their [await]. *)
Definition beginTopicSubmit (l : Session) : Session :=
  let s := cells l in
  if negb (nonEmpty (trim (topic s))) then l
  else mkSession (s |> setIsLoading true |> setError None) (pending l ++ [Search]).

Definition beginVideoSelect (l : Session) : Session :=
  let s := cells l in
  match selectedVideo s with
  | None => l
  | Some _ =>
      mkSession (s |> setIsLoading true |> setError None) (pending l ++ [Analysis])
  end.

Definition beginAssessmentSelect (l : Session) : Session :=
  let s := cells l in
  match selectedAssessment s, selectedVideo s with
  | Some _, Some _ =>
      mkSession (s |> setIsLoading true |> setError None) (pending l ++ [Plan])
  | _, _ => l
  end.

(** The handlers from their [await] on: the [try] block after the call,
    or the [catch] block, then [finally]; [s] is the state at the time
    the promise settles. *)
Definition settleTopicSubmit (r : response) (s : State) : State :=
  let s :=
    match searchVideos r with
    | Resolved results =>
        if decide (length results = 0%nat)
        then s |> setError (Some noResultsMessage)
        else s |> setVideos results |> setStep SELECT_VIDEO
    | Rejected _ => s |> setError (Some searchErrorMessage)
    end in
  s |> setIsLoading false.

Definition settleVideoSelect (r : json_response) (s : State) : State :=
  let s :=
    match analyzeVideoAndSuggest r with
    | Resolved result =>
        s |> setVideoSummary (GeminiService.summary result)
          |> setAssessments (GeminiService.assessments result)
          |> setStep SELECT_ASSESSMENT
    | Rejected _ => s |> setError (Some analysisErrorMessage)
    end in
  s |> setIsLoading false.

Definition settleAssessmentSelect (r : response) (s : State) : State :=
  let s :=
    match generateLessonPlan r with
    | Resolved plan => s |> setLessonPlan plan |> setStep VIEW_PLAN
    | Rejected _ => s |> setError (Some planErrorMessage)
    end in
  s |> setIsLoading false.

(** What can happen next: a click or a key on a control of the screen,
    or the answer of the collaborator to a pending request. *)
Inductive action :=
  | TypeTopic (t : jsstring)
  | SubmitTopic
  | SelectVideo (i : nat)
  | ConfirmVideo
  | SelectAssessment (i : nat)
  | ConfirmAssessment
  | GoBack
  | Reset (confirmed : bool)
  | DismissError
  | SearchSettles (r : response)
  | AnalysisSettles (r : json_response)
  | PlanSettles (r : response).

(** The control behind a click, as an event of [App.enabled] (which
    does not look at the answer an event carries). *)
Definition control (a : action) : option App.event :=
  match a with
  | TypeTopic t => Some (App.TypeTopic t)
  | SubmitTopic => Some (App.SubmitTopic Failed)
  | SelectVideo i => Some (App.SelectVideo i)
  | ConfirmVideo => Some (App.ConfirmVideo JFailed)
  | SelectAssessment i => Some (App.SelectAssessment i)
  | ConfirmAssessment => Some (App.ConfirmAssessment Failed)
  | GoBack => Some App.GoBack
  | Reset confirmed => Some (App.Reset confirmed)
  | DismissError => Some App.DismissError
  | SearchSettles _ | AnalysisSettles _ | PlanSettles _ => None
  end.

(** A click needs its control on the screen; an answer needs its request
    to be pending. *)
Definition offered (l : Session) (a : action) : bool :=
  match a with
  | SearchSettles _ => bool_decide (Search ∈ pending l)
  | AnalysisSettles _ => bool_decide (Analysis ∈ pending l)
  | PlanSettles _ => bool_decide (Plan ∈ pending l)
  | _ =>
      match control a with
      | Some e => enabled (cells l) e
      | None => false
      end
  end.

(** The pending requests without one occurrence of [q]. *)
Fixpoint settled (q : request) (qs : list request) : list request :=
  match qs with
  | [] => []
  | q' :: qs' => if decide (q = q') then qs' else q' :: settled q qs'
  end.

Definition perform (a : action) (l : Session) : Session :=
  match a with
  | TypeTopic t => mkSession (setTopic t (cells l)) (pending l)
  | SubmitTopic => beginTopicSubmit l
  | SelectVideo i =>
      mkSession (setSelectedVideo (videos (cells l) !! i) (cells l)) (pending l)
  | ConfirmVideo => beginVideoSelect l
  | SelectAssessment i =>
      mkSession (setSelectedAssessment (assessments (cells l) !! i) (cells l))
        (pending l)
  | ConfirmAssessment => beginAssessmentSelect l
  | GoBack => mkSession (goBack (cells l)) (pending l)
  | Reset confirmed => mkSession (resetApp confirmed (cells l)) (pending l)
  | DismissError => mkSession (setError None (cells l)) (pending l)
  | SearchSettles r =>
      mkSession (settleTopicSubmit r (cells l)) (settled Search (pending l))
  | AnalysisSettles r =>
      mkSession (settleVideoSelect r (cells l)) (settled Analysis (pending l))
  | PlanSettles r =>
      mkSession (settleAssessmentSelect r (cells l)) (settled Plan (pending l))
  end.

Definition act (a : action) (l : Session) : option Session :=
  if offered l a then Some (perform a l) else None.

(** A session: the actions in the order they happen; [None] when one of
    them is not possible where it is tried. *)
Fixpoint run (l : Session) (actions : list action) : option Session :=
  match actions with
  | [] => Some l
  | a :: actions' =>
      match act a l with
      | Some l' => run l' actions'
      | None => None
      end
  end.

(** At most one request is pending, and the loader shows exactly while
    one is. *)
Definition exclusive (l : Session) : Prop :=
  (pending l = [] ∧ isLoading (cells l) = false)
  ∨ (∃ q, pending l = [q] ∧ isLoading (cells l) = true).

(** A selection whose id is a position of the current list. *)
Definition videoInRange (s : State) : Prop :=
  ∀ v, selectedVideo s = Some v →
    ∃ k : nat, vid v = Some (Z.of_nat k) ∧ (1 ≤ k ≤ length (videos s))%nat.
Definition assessmentInRange (s : State) : Prop :=
  ∀ a, selectedAssessment s = Some a →
    ∃ k : nat, a !! js "id" = Some (VNum (Z.of_nat k))
               ∧ (1 ≤ k ≤ length (assessments s))%nat.

End Live.

(** ** Sample inputs *)

Module Samples.

Import GeminiService App.

(** The text made of the given lines, separated by line feeds. *)
Fixpoint unlines (lines : list jsstring) : jsstring :=
  match lines with
  | [] => []
  | [line] => line
  | line :: rest => line ++ 10%N :: unlines rest
  end.

(** A block with a title and a channel but no url, followed by a block
    with a title and a url. *)
Definition droppedThenValid : jsstring :=
  unlines [js "Video 1"; js "Title: A"; js "Channel: C";
           js "Video 2"; js "Title: B"; js "URL: u"].

(** One block without channel and description lines. *)
Definition titleAndUrlOnly : jsstring :=
  unlines [js "Video 1"; js "Title: a"; js "URL: b"].

(** Five well-formed blocks, and a single one. *)
Definition block (n : Z) : list jsstring :=
  [js "Video " ++ toString n; js "Title: T" ++ toString n;
   js "Channel: C"; js "URL: https://youtu.be/" ++ toString n;
   js "Description: D"].
Definition fiveBlocks : jsstring :=
  unlines (block 1 ++ block 2 ++ block 3 ++ block 4 ++ block 5).
Definition oneBlock : jsstring := unlines (block 1).

(** [{"summary":"x","assessments":[{"title":"a","description":"b"},
    {"title":"c","description":"d"}]}], parsed. *)
Definition twoAssessments : gmap jsstring value :=
  {[ js "summary" := VStr (js "x");
     js "assessments" :=
       VArr [VObj {[ js "title" := VStr (js "a"); js "description" := VStr (js "b") ]};
             VObj {[ js "title" := VStr (js "c"); js "description" := VStr (js "d") ]}] ]}.

(** [{"summary":"x","assessments":7}], parsed. *)
Definition assessmentsNotArray : gmap jsstring value :=
  {[ js "summary" := VStr (js "x"); js "assessments" := VNum 7 ]}.

(** [{"summary":"x","assessments":[{"id":9,"title":"a","description":"b"},
    ...]}] with three assessments, parsed. *)
Definition threeAssessments : gmap jsstring value :=
  {[ js "summary" := VStr (js "x");
     js "assessments" :=
       VArr [VObj {[ js "id" := VNum 9; js "title" := VStr (js "a");
                     js "description" := VStr (js "b") ]};
             VObj {[ js "id" := VNum 9; js "title" := VStr (js "c");
                     js "description" := VStr (js "d") ]};
             VObj {[ js "id" := VNum 9; js "title" := VStr (js "e");
                     js "description" := VStr (js "f") ]}] ]}.

(** The user types a topic, gets five candidates, selects the third
    one, goes back, and submits again: this time one candidate is found. *)
Definition resubmitAfterBack : list event :=
  [TypeTopic (js "t"); SubmitTopic (Text (Some fiveBlocks)); SelectVideo 2;
   GoBack; SubmitTopic (Text (Some oneBlock))].

(** A session from the topic to the plan. *)
Definition toThePlan : list event :=
  [TypeTopic (js "t"); SubmitTopic (Text (Some fiveBlocks)); SelectVideo 1;
   ConfirmVideo (Parsed (VObj threeAssessments)); SelectAssessment 0;
   ConfirmAssessment (Text (Some (js "# plan")))].

(** A session up to the assessment screen, then the header button and a
    confirmed dialog. *)
Definition analysedThenReset : list event :=
  [TypeTopic (js "t"); SubmitTopic (Text (Some oneBlock)); SelectVideo 0;
   ConfirmVideo (Parsed (VObj threeAssessments)); Reset true].

(** The state on the video screen of that session, a video selected. *)
Definition selected : option State :=
  run initial
    [TypeTopic (js "t"); SubmitTopic (Text (Some oneBlock)); SelectVideo 0].

(** The state on the assessment screen of that session. *)
Definition analysed : option State :=
  run initial
    [TypeTopic (js "t"); SubmitTopic (Text (Some oneBlock)); SelectVideo 0;
     ConfirmVideo (Parsed (VObj threeAssessments))].

End Samples.

(** ** The text format requested by the prompt of [searchVideos]

    The prompt asks for one block per video: a line [Video n], then the
    lines [Title:], [Channel:], [URL:] and [Description:], and an empty
    line before the next block. *)

Module PromptFormat.

Record Block := mkBlock {
  blockTitle : jsstring;
  blockChannel : jsstring;
  blockUrl : jsstring;
  blockDescription : jsstring
}.

(** The lines of the block numbered [n]. *)
Definition blockLines (n : Z) (b : Block) : list jsstring :=
  [js "Video " ++ toString n;
   js "Title: " ++ blockTitle b;
   js "Channel: " ++ blockChannel b;
   js "URL: " ++ blockUrl b;
   js "Description: " ++ blockDescription b;
   []].

(** The lines of the blocks numbered from [n] on. *)
Fixpoint linesFrom (n : Z) (blocks : list Block) : list jsstring :=
  match blocks with
  | [] => []
  | b :: blocks' => blockLines n b ++ linesFrom (n + 1) blocks'
  end.

(** The lines joined by line feeds. *)
Fixpoint unlines (lines : list jsstring) : jsstring :=
  match lines with
  | [] => []
  | [line] => line
  | line :: rest => line ++ 10%N :: unlines rest
  end.

Definition format (blocks : list Block) : jsstring :=
  unlines (linesFrom 1 blocks).

(** The candidate the parser is expected to build from a block: every
    field trimmed, no [id] yet. *)
Definition candidate (b : Block) : GeminiService.VideoRecommendation :=
  GeminiService.mkVideo None
    (Some (trim (blockTitle b))) (Some (trim (blockChannel b)))
    (Some (trim (blockUrl b))) (Some (trim (blockDescription b))).

(** A block the format can carry: no field contains a line feed, and
    title and url are not blank. *)
Definition wellFormed (b : Block) : Prop :=
  (10%N ∉ blockTitle b) ∧ (10%N ∉ blockChannel b)
  ∧ (10%N ∉ blockUrl b) ∧ (10%N ∉ blockDescription b)
  ∧ trim (blockTitle b) ≠ [] ∧ trim (blockUrl b) ≠ [].

(** A line the loop of the parser skips whatever its counter is: after
    trimming it neither starts with [video] in any case nor with one of
    the labels. *)
Definition ignorable (line : jsstring) : bool :=
  let cleanLine := trim line in
  negb (startsWith (js "video") (toLowerCase cleanLine))
  && negb (GeminiService.startsWithAny GeminiService.titleLabels cleanLine)
  && negb (GeminiService.startsWithAny GeminiService.channelLabels cleanLine)
  && negb (GeminiService.startsWithAny GeminiService.urlLabels cleanLine)
  && negb (GeminiService.startsWithAny GeminiService.descriptionLabels cleanLine).

(** The lines that start with [video] in any case once trimmed: the only
    lines that can be taken for the start of an entry. *)
Definition videoLine (line : jsstring) : bool :=
  startsWith (js "video") (toLowerCase (trim line)).

(** The value a labelled line gives to its field. *)
Definition fieldOf (labels : list jsstring) (line : jsstring) : jsstring :=
  trim (stripPrefix labels (trim line)).

End PromptFormat.

(** ** The cards and the step indicator *)

Module Cards.

Import GeminiService.

(** [isSelected={selectedVideo?.id === video.id}] of the video cards. *)
Definition isSelected (selectedVideo : option VideoRecommendation)
    (video : VideoRecommendation) : bool :=
  bool_decide ((selectedVideo ≫= vid) = vid video).

End Cards.

Module StepIndicator.

(** The [steps] array of the component. *)
Definition steps : list (Z * jsstring) :=
  [(0, [51452; 51228; 32; 51077; 47141]%N);
   (1, [50689; 49345; 32; 49440; 53469]%N);
   (2, [54217; 44032; 32; 49440; 53469]%N);
   (3, [51648; 46020; 50504; 32; 54869; 51064]%N)].

(** The three looks of a circle: filled, filled with a ring, grey. *)
Inductive circle := Completed | Current | Upcoming.

(** What is drawn for the step at [index]: the class of the circle, its
    content (a check mark, or the number [index + 1]), whether the label
    is blue, and the connector to the next step with its colour, if
    there is one. *)
Record item := mkItem {
  look : circle;
  content : option Z;
  labelActive : bool;
  connector : option bool
}.

Definition renderItem (currentStep : Z) (index : nat) : item :=
  mkItem
    (if Z.of_nat index <? currentStep then Completed
     else if currentStep =? Z.of_nat index then Current
     else Upcoming)
    (if Z.of_nat index <? currentStep then None else Some (Z.of_nat index + 1))
    (Z.of_nat index <=? currentStep)
    (if Z.of_nat index <? Z.of_nat (length steps) - 1
     then Some (Z.of_nat index <? currentStep) else None).

Definition render (currentStep : Z) : list item :=
  imap (λ index _, renderItem currentStep index) steps.

End StepIndicator.

(** ** The export to the clipboard ([handleWriteToGoogleDocs]) *)

Module DocsExport.

Import App.

(** [s.replace(/pat/g, rep)] for a literal, non-empty pattern and a
    replacement without [$]: the text is read from the left, every match
    is replaced and the reading resumes after it.  [skip] counts the code
    units of the current match still to be passed over. *)
Fixpoint replaceAll_go (pat rep : jsstring) (skip : nat) (s : jsstring) : jsstring :=
  match s with
  | [] => []
  | c :: s' =>
      match skip with
      | S k => replaceAll_go pat rep k s'
      | O =>
          if startsWith pat s
          then rep ++ replaceAll_go pat rep (length pat - 1) s'
          else c :: replaceAll_go pat rep 0 s'
      end
  end.

Definition replaceAll (pat rep s : jsstring) : jsstring :=
  replaceAll_go pat rep 0 s.

(** A double quote. *)
Definition dq : jsstring := [34%N].

Definition tableOpen : jsstring :=
  js "<table border=" ++ dq ++ js "1" ++ dq ++ js " style=" ++ dq
  ++ js "border-collapse: collapse; width: 100%; border: 1px solid black;" ++ dq.
Definition thOpen : jsstring :=
  js "<th style=" ++ dq
  ++ js "border: 1px solid black; padding: 8px; background-color: #f3f4f6;" ++ dq.
Definition tdOpen : jsstring :=
  js "<td style=" ++ dq ++ js "border: 1px solid black; padding: 8px;" ++ dq.
Definition wrapperOpen : jsstring :=
  js "<div style=" ++ dq
  ++ js "font-family: Arial, sans-serif; line-height: 1.5; color: #000;" ++ dq
  ++ js ">".
Definition wrapperClose : jsstring := js "</div>".

(** The three replacements, in the order of the source. *)
Definition injectStyles (htmlContent : jsstring) : jsstring :=
  replaceAll (js "<td") tdOpen
    (replaceAll (js "<th") thOpen
       (replaceAll (js "<table") tableOpen htmlContent)).

(** The final value of [htmlContent]. *)
Definition styledHtml (innerHTML : jsstring) : jsstring :=
  wrapperOpen ++ injectStyles innerHTML ++ wrapperClose.






End DocsExport.

(** ** Notions used by the properties *)

(** What the parser pushes when an entry starts or the text ends. *)
Definition flushed (cur : GeminiService.VideoRecommendation) (n : Z)
    : list GeminiService.VideoRecommendation :=
  if GeminiService.isSet (GeminiService.title cur)
     && GeminiService.isSet (GeminiService.url cur)
  then [GeminiService.withId cur n] else [].

(** The candidates of the blocks numbered from [n] on. *)
Definition numbered (n : Z) (blocks : list PromptFormat.Block)
    : list GeminiService.VideoRecommendation :=
  imap (λ i b, GeminiService.withId (PromptFormat.candidate b) (n + Z.of_nat i))
    blocks.

(** Where a field of a candidate comes from: a line that starts with a
    label of the field, whose remainder it is. *)
Definition fromLine (lines : list jsstring) (labels : list jsstring)
    (field : option jsstring) : Prop :=
  ∀ t, field = Some t →
    ∃ line, line ∈ lines
            ∧ GeminiService.startsWithAny labels (trim line) = true
            ∧ t = PromptFormat.fieldOf labels line.

Definition fromLines (lines : list jsstring)
    (v : GeminiService.VideoRecommendation) : Prop :=
  fromLine lines GeminiService.titleLabels (GeminiService.title v)
  ∧ fromLine lines GeminiService.channelLabels (GeminiService.channel v)
  ∧ fromLine lines GeminiService.urlLabels (GeminiService.url v)
  ∧ fromLine lines GeminiService.descriptionLabels (GeminiService.description v).

(** A list of candidates as [parseVideoResponse] returns them: at most
    five, each with a title and a url, numbered 1, ..., N. *)
Definition videosNumbered (l : list GeminiService.VideoRecommendation) : Prop :=
  (length l ≤ 5)%nat
  ∧ Forall GeminiService.complete l
  ∧ GeminiService.vid <$> l = (λ k, Some (Z.of_nat k)) <$> seq 1 (length l).

(** A list of assessments numbered 1, ..., N. *)
Definition assessmentsNumbered (l : list (gmap jsstring value)) : Prop :=
  (λ o : gmap jsstring value, o !! js "id") <$> l
  = (λ k, Some (VNum (Z.of_nat k))) <$> seq 1 (length l).

(** What every session keeps, whatever is pending. *)
Definition liveInvariant (l : Live.Session) : Prop :=
  Live.exclusive l
  ∧ App.isAppStep (App.step (Live.cells l))
  ∧ videosNumbered (App.videos (Live.cells l))
  ∧ assessmentsNumbered (App.assessments (Live.cells l))
  ∧ App.planOnlyAtEnd (Live.cells l)
  ∧ (App.step (Live.cells l) = App.VIEW_PLAN → App.lessonPlan (Live.cells l) ≠ [])
  ∧ (Live.pending l ≠ [] → App.lessonPlan (Live.cells l) = []).

(** ** More sample inputs *)

Module MoreSamples.

Import GeminiService App PromptFormat.

(** Six blocks, with white space around some fields. *)
Definition sixBlocks : list Block :=
  [mkBlock (js "Newton  ") (js "Physics") (js "https://youtu.be/1") (js "first law");
   mkBlock (js "Force") (js "") (js " https://youtu.be/2") (js "");
   mkBlock (js "Mass") (js "Lab") (js "https://youtu.be/3") (js "third");
   mkBlock (js "Inertia") (js "Lab") (js "https://youtu.be/4") (js "fourth");
   mkBlock (js "Momentum") (js "Lab") (js "https://youtu.be/5") (js "fifth");
   mkBlock (js "Gravity") (js "Lab") (js "https://youtu.be/6") (js "sixth")].

(** A sentence before the url line of a block. *)
Definition sentence : jsstring := js "Here is the link you asked for".

(** A topic of two spaces and a tab. *)
Definition blankTopic : State := setTopic [32; 32; 9]%N initial.

(** The state after a failed search on the topic [t]. *)
Definition failedSearch : State :=
  handleTopicSubmit Failed (setTopic (js "t") initial).

(** A rendered paragraph, and a rendered table. *)
Definition paragraph : jsstring := js "<p>plan</p>".

End MoreSamples.

(** ** Sample sessions with pending requests *)

Module LiveSamples.

Import GeminiService Live.

(** From the topic to the plan. *)
Definition toThePlan : list action :=
  [TypeTopic (js "t"); SubmitTopic; SearchSettles (Text (Some Samples.fiveBlocks));
   SelectVideo 1; ConfirmVideo;
   AnalysisSettles (Parsed (VObj Samples.threeAssessments));
   SelectAssessment 0; ConfirmAssessment; PlanSettles (Text (Some (js "# plan")))].

(** The second card selected. *)
Definition secondSelected : list action :=
  [TypeTopic (js "t"); SubmitTopic; SearchSettles (Text (Some Samples.fiveBlocks));
   SelectVideo 1].

(** The second card selected, Back, and the same search again: the
    selection is from the first list, its id is in the second one. *)
Definition searchedAgain : list action :=
  secondSelected
  ++ [GoBack; SubmitTopic; SearchSettles (Text (Some Samples.fiveBlocks))].

(** The analysis of the only candidate is awaited. *)
Definition awaitingAnalysis : list action :=
  [TypeTopic (js "t"); SubmitTopic; SearchSettles (Text (Some Samples.oneBlock));
   SelectVideo 0; ConfirmVideo].

(** The header button is used meanwhile, and then the answer arrives. *)
Definition resetWhileAwaiting : list action :=
  awaitingAnalysis
  ++ [Reset true; AnalysisSettles (Parsed (VObj Samples.threeAssessments))].

End LiveSamples.

(** * Properties *)

(** ** The video list parser *)

Section ParseVideoResponse.

Import GeminiService.

Lemma isSet_Some (p : option jsstring) :
  isSet p = true → ∃ t, p = Some t ∧ t ≠ [].
Proof.
  destruct p as [[|c t]|]; simpl; try discriminate.
  intros _. by exists (c :: t).
Qed.

Lemma complete_of_test (v : VideoRecommendation) :
  isSet (title v) && isSet (url v) = true → complete v.
Proof.
  intros [Ht Hu]%andb_true_iff.
  destruct (isSet_Some _ Ht) as (t & ? & ?).
  destruct (isSet_Some _ Hu) as (u & ? & ?).
  by exists t, u.
Qed.

Lemma complete_withId (v : VideoRecommendation) (n : Z) :
  complete v → complete (withId v n).
Proof. intros (t & u & ?). by exists t, u. Qed.

(** Every iteration keeps the pushed candidates complete. *)
Lemma parseLine_complete (st : ParserState) (line : jsstring) :
  Forall complete (videos st) → Forall complete (videos (parseLine st line)).
Proof.
  intros Hall. unfold parseLine.
  repeat case_match; simpl; try done.
  apply Forall_app. split; [done|].
  apply Forall_singleton, complete_withId. by apply complete_of_test.
Qed.

Lemma foldl_parseLine_complete (lines : list jsstring) (st : ParserState) :
  Forall complete (videos st) →
  Forall complete (videos (foldl parseLine st lines)).
Proof.
  revert st. induction lines as [|line lines IH]; intros st Hst; simpl; [done|].
  by apply IH, parseLine_complete.
Qed.

Lemma flushLast_complete (st : ParserState) :
  Forall complete (videos st) → Forall complete (flushLast st).
Proof.
  intros Hall. unfold flushLast. case_match; [|done].
  apply Forall_app. split; [done|].
  apply Forall_singleton, complete_withId. by apply complete_of_test.
Qed.

Lemma renumber_lookup (vs : list VideoRecommendation) (i : nat) :
  renumber vs !! i = (λ v, withId v (Z.of_nat i + 1)) <$> take 5 vs !! i.
Proof. unfold renumber. by rewrite list_lookup_imap. Qed.

Lemma renumber_length (vs : list VideoRecommendation) :
  length (renumber vs) = (length vs `min` 5)%nat.
Proof. unfold renumber. rewrite length_imap, length_take. lia. Qed.

Lemma renumber_complete (vs : list VideoRecommendation) :
  Forall complete vs → Forall complete (renumber vs).
Proof.
  intros Hall. apply Forall_lookup. intros i v.
  rewrite renumber_lookup. intros Hi.
  apply fmap_Some in Hi as (w & Hw & ->).
  apply complete_withId.
  eapply Forall_lookup_1; [by apply Forall_take|done].
Qed.

Lemma renumber_ids (vs : list VideoRecommendation) :
  vid <$> renumber vs = (λ k, Some (Z.of_nat k)) <$> seq 1 (length (renumber vs)).
Proof.
  apply list_eq. intros i.
  rewrite !list_lookup_fmap, renumber_lookup.
  destruct (take 5 vs !! i) as [v|] eqn:Hi; simpl.
  - apply lookup_lt_Some in Hi.
    rewrite lookup_seq_lt.
    + simpl. do 2 f_equal. lia.
    + unfold renumber. by rewrite length_imap.
  - apply lookup_ge_None in Hi.
    rewrite lookup_seq_ge; [done|].
    unfold renumber. by rewrite length_imap.
Qed.

End ParseVideoResponse.

(** C6.  For every input text, [parseVideoResponse] returns at most five
    candidates, each of them has a non-empty title and a non-empty url,
    and the [id]s of the [N] candidates returned are [1], ..., [N] in the
    order of the list, whatever numbers the text contains. *)
Theorem parseVideoResponse_shape (text : jsstring) :
  let result := GeminiService.parseVideoResponse text in
  (length result ≤ 5)%nat
  ∧ Forall GeminiService.complete result
  ∧ GeminiService.vid <$> result
    = (λ k, Some (Z.of_nat k)) <$> seq 1 (length result).
Proof.
  unfold GeminiService.parseVideoResponse. simpl. split_and!.
  - rewrite renumber_length. lia.
  - apply renumber_complete, flushLast_complete, foldl_parseLine_complete.
    constructor.
  - apply renumber_ids.
Qed.

(** C3.  On the text of [Samples.droppedThenValid] the first block (title
    and channel, no url) is not flushed, but the accumulator is not
    emptied either when the marker of the second block arrives: the one
    candidate returned carries the channel of the dropped block. *)
Theorem parseVideoResponse_keeps_incomplete_fields :
  GeminiService.parseVideoResponse Samples.droppedThenValid
  = [GeminiService.mkVideo (Some 1) (Some (js "B")) (Some (js "C")) (Some (js "u")) None].
Proof. vm_compute. reflexivity. Qed.

(** C4.  On the text of [Samples.titleAndUrlOnly] the candidate is
    returned, and its channel and description are missing properties,
    not empty strings. *)
Theorem parseVideoResponse_missing_fields_absent :
  GeminiService.parseVideoResponse Samples.titleAndUrlOnly
  = [GeminiService.mkVideo (Some 1) (Some (js "a")) None (Some (js "b")) None]
  ∧ GeminiService.channel <$> GeminiService.parseVideoResponse Samples.titleAndUrlOnly
    ≠ [Some []]
  ∧ GeminiService.description <$> GeminiService.parseVideoResponse Samples.titleAndUrlOnly
    ≠ [Some []].
Proof. vm_compute. split_and!; [reflexivity|discriminate..]. Qed.

(** ** The analysis parser *)

Section ParseAnalysis.

Import GeminiService.

Lemma parseAnalysis_array (m : gmap jsstring value) (l : list value) :
  m !! js "assessments" = Some (VArr l) →
  parseAnalysis (VObj m) = Some (mkAnalysis (m !! js "summary") (imap resequence l)).
Proof. intros H. unfold parseAnalysis. simpl. by rewrite H. Qed.

Lemma parseAnalysis_falsy (m : gmap jsstring value) :
  truthy (m !! js "assessments") = false →
  parseAnalysis (VObj m) = Some (mkAnalysis (m !! js "summary") []).
Proof. intros H. unfold parseAnalysis. simpl. by rewrite H. Qed.

Lemma parseAnalysis_not_array (m : gmap jsstring value) (x : value) :
  m !! js "assessments" = Some x →
  truthy (Some x) = true →
  (∀ l, x ≠ VArr l) →
  parseAnalysis (VObj m) = None.
Proof.
  intros H Ht Hx. unfold parseAnalysis. simpl. rewrite H, Ht.
  destruct x; try done. by destruct (Hx l).
Qed.

Lemma resequence_id (i : nat) (a : value) :
  resequence i a !! js "id" = Some (VNum (Z.of_nat i + 1)).
Proof. unfold resequence. by rewrite lookup_insert_eq. Qed.

Lemma resequence_other (i : nat) (a : value) (k : jsstring) :
  k ≠ js "id" → resequence i a !! k = spread a !! k.
Proof. intros Hk. unfold resequence. by rewrite lookup_insert_ne. Qed.

End ParseAnalysis.

(** C5, counterexample.  On [{"summary":"x","assessments":7}] the
    assessments are not an array, and the result is not an analysis with
    an empty sequence of assessments: the call fails. *)
Lemma parseAnalysis_not_array_fails :
  ¬ (∃ r, GeminiService.parseAnalysis (VObj Samples.assessmentsNotArray) = Some r
          ∧ GeminiService.assessments r = [])
  ∧ GeminiService.analyzeVideoAndSuggest
      (GeminiService.Parsed (VObj Samples.assessmentsNotArray))
    = GeminiService.Rejected GeminiService.analysisFailedMessage.
Proof.
  split.
  - intros (r & Hr & _). vm_compute in Hr. discriminate.
  - vm_compute. reflexivity.
Qed.

(** C5, amended.  [parseAnalysis] applied to [{}] succeeds and the
    assessments of its result are the empty sequence; the same holds for
    every object whose [assessments] property is missing or falsy, and a
    summary that is present is passed on as it is; an [assessments]
    property that is truthy and not an array makes the call fail. *)
Theorem parseAnalysis_lenient :
  (∃ r, GeminiService.parseAnalysis (VObj ∅) = Some r
        ∧ GeminiService.assessments r = [])
  ∧ (∀ m : gmap jsstring value,
       truthy (m !! js "assessments") = false →
       ∃ r, GeminiService.parseAnalysis (VObj m) = Some r
            ∧ GeminiService.assessments r = []
            ∧ ∀ v, m !! js "summary" = Some v → GeminiService.summary r = Some v)
  ∧ (∀ (m : gmap jsstring value) (x : value),
       m !! js "assessments" = Some x →
       truthy (Some x) = true →
       (∀ l, x ≠ VArr l) →
       GeminiService.parseAnalysis (VObj m) = None
       ∧ GeminiService.analyzeVideoAndSuggest (GeminiService.Parsed (VObj m))
         = GeminiService.Rejected GeminiService.analysisFailedMessage).
Proof.
  split_and!.
  - eexists. split; [reflexivity|reflexivity].
  - intros m Hm. eexists. split; [by apply parseAnalysis_falsy|]. by split.
  - intros m x Hx Ht Hna.
    pose proof (parseAnalysis_not_array m x Hx Ht Hna) as Hp.
    split; [done|]. unfold GeminiService.analyzeVideoAndSuggest. by rewrite Hp.
Qed.

Lemma parseAnalysis_lenient_witness :
  (∃ r, GeminiService.parseAnalysis (VObj {[ js "summary" := VStr (js "x") ]}) = Some r
        ∧ GeminiService.assessments r = []
        ∧ GeminiService.summary r = Some (VStr (js "x")))
  ∧ GeminiService.parseAnalysis (VObj Samples.assessmentsNotArray) = None.
Proof.
  destruct parseAnalysis_lenient as (_ & Hfalsy & Hfail). split.
  - destruct (Hfalsy {[ js "summary" := VStr (js "x") ]}) as (r & Hr & Ha & Hs);
      [vm_compute; reflexivity|].
    exists r. split_and!; [done|done|]. apply Hs. vm_compute. reflexivity.
  - apply (Hfail Samples.assessmentsNotArray (VNum 7)).
    + vm_compute. reflexivity.
    + reflexivity.
    + discriminate.
Defined.

(** C7.  For every parsed object whose [assessments] is an array, the
    call succeeds with one assessment per element, in the same order; the
    [id] of the assessment at position [i] (from zero) is [i + 1]
    whatever [id] came in, and its title and description are those of
    the element (for an element [VObj o], [spread] is [o] itself).  On
    the object of the specification's example the two assessments get
    the ids 1 and 2 and keep their titles and descriptions. *)
Theorem parseAnalysis_resequences (m : gmap jsstring value) (l : list value) :
  m !! js "assessments" = Some (VArr l) →
  (∃ r, GeminiService.parseAnalysis (VObj m) = Some r
        ∧ length (GeminiService.assessments r) = length l
        ∧ ∀ i a, l !! i = Some a →
            ∃ o, GeminiService.assessments r !! i = Some o
                 ∧ o !! js "id" = Some (VNum (Z.of_nat i + 1))
                 ∧ o !! js "title" = spread a !! js "title"
                 ∧ o !! js "description" = spread a !! js "description")
  ∧ GeminiService.parseAnalysis (VObj Samples.twoAssessments)
    = Some (GeminiService.mkAnalysis (Some (VStr (js "x")))
              [ {[ js "id" := VNum 1; js "title" := VStr (js "a");
                   js "description" := VStr (js "b") ]};
                {[ js "id" := VNum 2; js "title" := VStr (js "c");
                   js "description" := VStr (js "d") ]} ]).
Proof.
  intros Hm. split.
  - eexists. split; [by apply parseAnalysis_array|]. simpl. split.
    + by rewrite length_imap.
    + intros i a Hi. exists (GeminiService.resequence i a). split_and!.
      * by rewrite list_lookup_imap, Hi.
      * apply resequence_id.
      * by apply resequence_other.
      * by apply resequence_other.
  - vm_compute. reflexivity.
Qed.

Lemma parseAnalysis_resequences_witness :
  ∃ r, GeminiService.parseAnalysis (VObj Samples.threeAssessments) = Some r
       ∧ length (GeminiService.assessments r) = 3%nat
       ∧ ∃ o, GeminiService.assessments r !! 2%nat = Some o
              ∧ o !! js "id" = Some (VNum 3)
              ∧ o !! js "title" = Some (VStr (js "e")).
Proof.
  destruct (parseAnalysis_resequences Samples.threeAssessments
              [VObj {[ js "id" := VNum 9; js "title" := VStr (js "a");
                       js "description" := VStr (js "b") ]};
               VObj {[ js "id" := VNum 9; js "title" := VStr (js "c");
                       js "description" := VStr (js "d") ]};
               VObj {[ js "id" := VNum 9; js "title" := VStr (js "e");
                       js "description" := VStr (js "f") ]}])
    as [(r & Hr & Hlen & Hall) _]; [vm_compute; reflexivity|].
  exists r. split_and!; [done|done|].
  destruct (Hall 2%nat _ eq_refl) as (o & Ho & Hid & Htitle & _).
  exists o. split_and!; [done|done|]. rewrite Htitle. vm_compute. reflexivity.
Defined.

(** ** The lesson plan *)

(** C9.  When the call succeeds and the response has no text (the text
    is missing or empty), [generateLessonPlan] resolves to the fallback
    literal, which is not empty; so whenever it resolves, the document is
    not the empty string. *)
Theorem generateLessonPlan_never_empty :
  (∀ text, text = None ∨ text = Some [] →
     GeminiService.generateLessonPlan (GeminiService.Text text)
     = GeminiService.Resolved GeminiService.planFallback)
  ∧ GeminiService.planFallback ≠ []
  ∧ (∀ r doc, GeminiService.generateLessonPlan r = GeminiService.Resolved doc → doc ≠ []).
Proof.
  split_and!.
  - intros text [->| ->]; reflexivity.
  - done.
  - intros [|[[|c s]|]] doc H; simpl in H; inversion H; done.
Qed.

Lemma generateLessonPlan_never_empty_witness :
  GeminiService.generateLessonPlan (GeminiService.Text (Some []))
  = GeminiService.Resolved GeminiService.planFallback
  ∧ GeminiService.planFallback ≠ [].
Proof.
  destruct generateLessonPlan_never_empty as (Hempty & _ & Hdoc). split.
  - apply Hempty. right. reflexivity.
  - apply (Hdoc (GeminiService.Text None)). reflexivity.
Defined.

(** ** The step flow *)

Section Flow.

Import GeminiService App.

(** What [resetApp] writes once the dialog is confirmed: every cell but
    [isLoading] and [videoSummary]. *)
Lemma resetApp_fields (s : State) :
  resetApp true s
  = mkState INPUT_TOPIC [] (isLoading s) None [] None (videoSummary s) [] None [].
Proof. reflexivity. Qed.

(** [goBack] on a positive step. *)
Lemma goBack_positive (s : State) :
  0 < step s →
  goBack s
  = mkState (step s - 1) (topic s) (isLoading s) None (videos s) (selectedVideo s)
      (videoSummary s) (assessments s) (selectedAssessment s) (lessonPlan s).
Proof.
  intros Hpos. unfold goBack.
  destruct (Z.ltb_spec 0 (step s)); [reflexivity|lia].
Qed.

(** [goBack] on a step that is not positive. *)
Lemma goBack_not_positive (s : State) :
  step s ≤ 0 →
  goBack s
  = mkState (step s) (topic s) (isLoading s) None (videos s) (selectedVideo s)
      (videoSummary s) (assessments s) (selectedAssessment s) (lessonPlan s).
Proof.
  intros Hle. unfold goBack.
  destruct (Z.ltb_spec 0 (step s)); [lia|reflexivity].
Qed.

(** The handlers that await the service leave the lists of the other
    screens alone. *)
Lemma handleVideoSelect_videos (r : json_response) (s : State) :
  videos (handleVideoSelect r s) = videos s
  ∧ selectedVideo (handleVideoSelect r s) = selectedVideo s
  ∧ selectedAssessment (handleVideoSelect r s) = selectedAssessment s
  ∧ lessonPlan (handleVideoSelect r s) = lessonPlan s.
Proof. unfold handleVideoSelect. by repeat case_match. Qed.

Lemma handleTopicSubmit_frame (r : response) (s : State) :
  selectedVideo (handleTopicSubmit r s) = selectedVideo s
  ∧ assessments (handleTopicSubmit r s) = assessments s
  ∧ selectedAssessment (handleTopicSubmit r s) = selectedAssessment s
  ∧ lessonPlan (handleTopicSubmit r s) = lessonPlan s.
Proof. unfold handleTopicSubmit. by repeat case_match. Qed.

Lemma handleAssessmentSelect_frame (r : response) (s : State) :
  videos (handleAssessmentSelect r s) = videos s
  ∧ selectedVideo (handleAssessmentSelect r s) = selectedVideo s
  ∧ assessments (handleAssessmentSelect r s) = assessments s
  ∧ selectedAssessment (handleAssessmentSelect r s) = selectedAssessment s.
Proof. unfold handleAssessmentSelect. by repeat case_match. Qed.

End Flow.

(** C2.  In the session [Samples.analysedThenReset] the analysis stored
    the summary [x]; after the confirmed reset the step is [INPUT_TOPIC]
    and every cell has its initial value except [videoSummary], which
    still holds [x]. *)
Theorem resetApp_keeps_videoSummary :
  ∃ s s', Samples.analysed = Some s
          ∧ App.run App.initial Samples.analysedThenReset = Some s'
          ∧ s' = App.resetApp true s
          ∧ App.videoSummary s' = Some (VStr (js "x"))
          ∧ App.videoSummary s' ≠ App.videoSummary App.initial
          ∧ App.setVideoSummary (App.videoSummary App.initial) s' = App.initial.
Proof.
  eexists. eexists. split; [vm_compute; reflexivity|].
  split; [vm_compute; reflexivity|].
  split_and!; [vm_compute; reflexivity|reflexivity|discriminate|reflexivity].
Qed.

(** C8.  On every step other than [INPUT_TOPIC], [goBack] subtracts one
    from the step, clears the error and leaves every other cell as it
    was; in particular, after [handleVideoSelect] has succeeded on
    [SELECT_VIDEO], [goBack] leads back to [SELECT_VIDEO] with the same
    list of candidates and the same selection, no error, and without
    taking any answer of the service. *)
Theorem goBack_decrements (s : App.State) :
  App.isAppStep (App.step s) →
  App.step s ≠ App.INPUT_TOPIC →
  App.goBack s
  = App.mkState (App.step s - 1) (App.topic s) (App.isLoading s) None
      (App.videos s) (App.selectedVideo s) (App.videoSummary s)
      (App.assessments s) (App.selectedAssessment s) (App.lessonPlan s)
  ∧ ∀ r, App.step s = App.SELECT_VIDEO →
         App.step (App.handleVideoSelect r s) = App.SELECT_ASSESSMENT →
         let s' := App.goBack (App.handleVideoSelect r s) in
         App.step s' = App.SELECT_VIDEO
         ∧ App.videos s' = App.videos s
         ∧ App.selectedVideo s' = App.selectedVideo s
         ∧ App.error s' = None.
Proof.
  intros Hstep Hne. split.
  - apply goBack_positive.
    unfold App.isAppStep, App.INPUT_TOPIC, App.SELECT_VIDEO,
      App.SELECT_ASSESSMENT, App.VIEW_PLAN in *. lia.
  - intros r _ Hok. simpl.
    destruct (handleVideoSelect_videos r s) as (Hv & Hsel & _).
    rewrite goBack_positive by (rewrite Hok; done).
    simpl. rewrite Hok. done.
Qed.

Lemma goBack_decrements_witness :
  ∃ s, Samples.selected = Some s
       ∧ App.step (App.goBack s) = App.INPUT_TOPIC
       ∧ App.videos (App.goBack s) = App.videos s
       ∧ let s' := App.goBack
                     (App.handleVideoSelect
                        (GeminiService.Parsed (VObj Samples.threeAssessments)) s) in
         App.step s' = App.SELECT_VIDEO
         ∧ App.videos s' = App.videos s
         ∧ App.selectedVideo s' = App.selectedVideo s
         ∧ App.error s' = None.
Proof.
  eexists. split; [vm_compute; reflexivity|].
  match goal with |- App.step (App.goBack ?s) = _ ∧ _ =>
    destruct (goBack_decrements s) as [Heq Hback];
      [right; left; reflexivity|discriminate|]
  end.
  split_and!.
  - rewrite Heq. reflexivity.
  - rewrite Heq. reflexivity.
  - apply Hback; reflexivity.
Defined.

(** C10.  On [INPUT_TOPIC], [goBack] leaves the step where it is (it
    never goes below the first step), clears the error and changes no
    other cell. *)
Theorem goBack_at_INPUT_TOPIC (s : App.State) :
  App.step s = App.INPUT_TOPIC →
  App.goBack s
  = App.mkState App.INPUT_TOPIC (App.topic s) (App.isLoading s) None
      (App.videos s) (App.selectedVideo s) (App.videoSummary s)
      (App.assessments s) (App.selectedAssessment s) (App.lessonPlan s).
Proof.
  intros H. rewrite goBack_not_positive by (rewrite H; done). by rewrite H.
Qed.

Lemma goBack_at_INPUT_TOPIC_witness :
  App.goBack (App.setError (Some App.noResultsMessage) App.initial) = App.initial.
Proof.
  rewrite (goBack_at_INPUT_TOPIC (App.setError (Some App.noResultsMessage) App.initial)).
  - reflexivity.
  - reflexivity.
Defined.

(** ** The invariant along a session *)

Section Sessions.

Import GeminiService App.

Lemma enabled_step (s : State) (e : event) :
  enabled s e = true →
  match e with
  | TypeTopic _ | SubmitTopic _ => step s = INPUT_TOPIC
  | SelectVideo _ | ConfirmVideo _ => step s = SELECT_VIDEO
  | SelectAssessment _ | ConfirmAssessment _ => step s = SELECT_ASSESSMENT
  | GoBack => step s = SELECT_VIDEO ∨ step s = SELECT_ASSESSMENT
  | Reset _ => INPUT_TOPIC < step s
  | DismissError => True
  end.
Proof.
  destruct e; simpl; intros H;
    repeat match type of H with
           | _ && _ = true => apply andb_true_iff in H as [H ?]
           end;
    try (by apply bool_decide_eq_true in H);
    try (match goal with
         | H' : bool_decide (step s = _) = true |- _ =>
             by apply bool_decide_eq_true in H'
         end);
    try done.
  apply orb_true_iff in H0 as [H0|H0]; apply bool_decide_eq_true in H0; tauto.
Qed.

(** Before the last screen the plan is empty. *)
Lemma plan_empty_before_end (s : State) :
  planOnlyAtEnd s → step s ≠ VIEW_PLAN → lessonPlan s = [].
Proof.
  intros Hplan Hstep. destruct (lessonPlan s) as [|c p] eqn:Hp; [done|].
  destruct Hstep. apply Hplan. by rewrite Hp.
Qed.

End Sessions.

(** C1, counterexample.  In the session [Samples.resubmitAfterBack]
    every event is offered by the screen it is sent to, and it ends on
    [SELECT_VIDEO] with the third candidate of the first search still
    selected while the list holds the single candidate of the second
    search: the invariant does not hold in a reachable state. *)
Lemma invariant_broken_by_resubmit :
  ∃ s, App.run App.initial Samples.resubmitAfterBack = Some s
       ∧ App.step s = App.SELECT_VIDEO
       ∧ ¬ App.invariant s.
Proof.
  eexists. split; [vm_compute; reflexivity|]. split; [reflexivity|].
  intros (Hv & _ & _).
  destruct (Hv _ eq_refl) as (c & Hc & Hid).
  apply list_elem_of_singleton in Hc. subst c. discriminate.
Qed.


(** * Further properties *)

(** ** JavaScript strings: trimming, splitting, searching *)

Section Strings.

Lemma trimStart_idemp (s : jsstring) : trimStart (trimStart s) = trimStart s.
Proof.
  induction s as [|c s IH]; simpl; [done|].
  destruct (isWhiteSpace c) eqn:Hc; [done|]. simpl. by rewrite Hc.
Qed.

(** Trimming at the start stops at the first piece that needs none. *)
Lemma trimStart_app_stable (a b : jsstring) :
  trimStart b = b → trimStart (a ++ b) = trimStart a ++ b.
Proof.
  intros Hb. induction a as [|c a IH]; simpl; [done|].
  by destruct (isWhiteSpace c).
Qed.

Lemma trimStart_snoc (a : jsstring) (c : N) :
  trimStart (a ++ [c])
  = match trimStart a with
    | [] => trimStart [c]
    | y => y ++ [c]
    end.
Proof.
  induction a as [|d a IH]; simpl; [done|].
  destruct (isWhiteSpace d); [done|]. reflexivity.
Qed.

Lemma trimEnd_app_stable (a b : jsstring) :
  trimEnd a = a → trimEnd (a ++ b) = a ++ trimEnd b.
Proof.
  unfold trimEnd. intros Ha.
  rewrite reverse_app, trimStart_app_stable, reverse_app, reverse_involutive; [done|].
  apply (f_equal reverse) in Ha. by rewrite reverse_involutive in Ha.
Qed.

Lemma trimEnd_cons (c : N) (s : jsstring) :
  trimEnd (c :: s)
  = match trimEnd s with
    | [] => if isWhiteSpace c then [] else [c]
    | y => c :: y
    end.
Proof.
  unfold trimEnd. rewrite reverse_cons, trimStart_snoc.
  destruct (trimStart (reverse s)) as [|d y] eqn:Hy.
  - simpl. by destruct (isWhiteSpace c).
  - rewrite reverse_app. simpl.
    destruct (reverse (d :: y)) eqn:Hr; [|done].
    apply (f_equal reverse) in Hr. rewrite reverse_involutive in Hr. done.
Qed.

Lemma trimEnd_idemp (s : jsstring) : trimEnd (trimEnd s) = trimEnd s.
Proof.
  unfold trimEnd. by rewrite reverse_involutive, trimStart_idemp.
Qed.

(** The two ends are trimmed independently. *)
Lemma trimStart_trimEnd (s : jsstring) :
  trimStart (trimEnd s) = trimEnd (trimStart s).
Proof.
  induction s as [|c s IH]; [done|].
  rewrite trimEnd_cons. simpl.
  destruct (isWhiteSpace c) eqn:Hc.
  - destruct (trimEnd s) as [|d y] eqn:Hy.
    + by rewrite <- IH.
    + simpl. rewrite Hc. by rewrite <- IH.
  - rewrite trimEnd_cons.
    destruct (trimEnd s); simpl; by rewrite Hc.
Qed.

Lemma trim_trimEnd (s : jsstring) : trim (trimEnd s) = trim s.
Proof.
  unfold trim. by rewrite trimStart_trimEnd, trimEnd_idemp.
Qed.

Lemma trim_idemp (s : jsstring) : trim (trim s) = trim s.
Proof.
  unfold trim at 2. rewrite trim_trimEnd. unfold trim. by rewrite trimStart_idemp.
Qed.

(** A text without white space is its own trimming. *)
Lemma trimStart_no_space (s : jsstring) :
  Forall (λ c, isWhiteSpace c = false) s → trimStart s = s.
Proof. intros [|c s' Hc _]; simpl; [done|]. by rewrite Hc. Qed.

Lemma trimEnd_no_space (s : jsstring) :
  Forall (λ c, isWhiteSpace c = false) s → trimEnd s = s.
Proof.
  intros Hs. unfold trimEnd.
  rewrite trimStart_no_space; [by rewrite reverse_involutive|].
  by apply Forall_reverse.
Qed.

Lemma trim_all_space (s : jsstring) :
  Forall (λ c, isWhiteSpace c = true) s → trim s = [].
Proof.
  intros H. unfold trim.
  assert (trimStart s = []) as ->; [|done].
  induction H as [|c s Hc _ IH]; simpl; [done|]. by rewrite Hc.
Qed.

Lemma digits_no_space (d : Decimal.uint) :
  Forall (λ c, isWhiteSpace c = false) (digits d).
Proof. induction d; simpl; constructor; done. Qed.

Lemma toString_no_space (n : Z) :
  Forall (λ c, isWhiteSpace c = false) (toString n).
Proof.
  unfold toString. destruct (Z.to_int n); [|constructor; [done|]];
    apply digits_no_space.
Qed.

(** The first code unit of a number written out is a digit or a minus
    sign. *)
Lemma toString_head (n : Z) :
  match toString n with
  | [] => True
  | c :: _ => (c = 45 ∨ 48 ≤ c ≤ 57)%N
  end.
Proof.
  unfold toString. destruct (Z.to_int n) as [d|d]; [|by left].
  destruct d; simpl; try done; right; lia.
Qed.

Lemma startsWith_app (p s : jsstring) : startsWith p (p ++ s) = true.
Proof. induction p as [|c p IH]; simpl; [done|]. by rewrite N.eqb_refl. Qed.

Lemma startsWith_spec (p s : jsstring) :
  startsWith p s = true ↔ ∃ r, s = p ++ r.
Proof.
  revert s. induction p as [|c p IH]; intros s; simpl.
  - split; [by exists s|done].
  - destruct s as [|d s]; [split; [done|by intros [r ?]]|].
    rewrite andb_true_iff, N.eqb_eq, IH. split.
    + intros [-> [r ->]]. by exists r.
    + intros [r Hr]. simplify_eq. eauto.
Qed.

Lemma includes_app_r (needle p q : jsstring) :
  includes needle (p ++ needle ++ q) = true.
Proof.
  induction p as [|c p IH]; simpl.
  - destruct (needle ++ q) eqn:Hn; simpl.
    + destruct needle; [done|done].
    + rewrite <- Hn, startsWith_app. done.
  - rewrite IH. apply orb_true_r.
Qed.

(** [split] on a separator between two texts. *)
Lemma split_go_app (sep : N) (cur a b : jsstring) :
  split_go sep cur (a ++ sep :: b) = split_go sep cur a ++ split_go sep [] b.
Proof.
  revert cur. induction a as [|c a IH]; intros cur; simpl.
  - by rewrite N.eqb_refl.
  - destruct (c =? sep)%N; simpl; by rewrite IH.
Qed.

Lemma split_app (sep : N) (a b : jsstring) :
  split sep (a ++ sep :: b) = split sep a ++ split sep b.
Proof. apply split_go_app. Qed.

Lemma split_go_no_sep (sep : N) (cur s : jsstring) :
  sep ∉ s → split_go sep cur s = [reverse cur ++ s].
Proof.
  revert cur. induction s as [|c s IH]; intros cur Hs; simpl.
  - by rewrite app_nil_r.
  - apply not_elem_of_cons in Hs as [Hc Hs].
    destruct (N.eqb_spec c sep); [done|].
    rewrite IH by done. by rewrite reverse_cons, <- app_assoc.
Qed.

Lemma split_no_sep (sep : N) (s : jsstring) : sep ∉ s → split sep s = [s].
Proof. intros Hs. unfold split. by rewrite split_go_no_sep. Qed.

End Strings.
(** ** The parser on the format of the prompt *)

Section Format.

Import GeminiService PromptFormat.

(** Literals of the source, written out. *)
Ltac literals :=
  repeat match goal with
         | |- context [js ?s] =>
             let v := eval vm_compute in (js s) in change (js s) with v
         end.

(** The trimming of a line that starts with a label free of white space
    at its ends. *)
Lemma trim_label (label rest : jsstring) :
  trimStart label = label → trimEnd label = label → label ≠ [] →
  trim (label ++ rest) = label ++ trimEnd rest.
Proof.
  intros Hs He Hne. unfold trim.
  destruct label as [|c label]; [done|].
  assert (isWhiteSpace c = false) as Hc.
  { simpl in Hs. destruct (isWhiteSpace c) eqn:Hc; [|done].
    pose proof (f_equal length Hs) as Hlen. simpl in Hlen.
    assert (length (trimStart label) ≤ length label)%nat; [|lia].
    clear. induction label as [|d l IH]; simpl; [done|].
    destruct (isWhiteSpace d); simpl; lia. }
  simpl. rewrite Hc. by apply (trimEnd_app_stable (c :: label)).
Qed.

Lemma trimEnd_space_trim (t : jsstring) : trim (trimEnd (32%N :: t)) = trim t.
Proof. by rewrite trim_trimEnd. Qed.

(** The four labelled lines of a block. *)
Lemma parseLine_title (st : ParserState) (t : jsstring) :
  parseLine st (js "Title: " ++ t)
  = mkParser (videos st)
      (mkVideo (vid (currentVideo st)) (Some (trim t)) (channel (currentVideo st))
         (url (currentVideo st)) (description (currentVideo st)))
      (counter st).
Proof.
  unfold parseLine.
  change (js "Title: " ++ t) with (js "Title:" ++ 32%N :: t).
  rewrite trim_label by done.
  rewrite <- (trimEnd_space_trim t). generalize (trimEnd (32%N :: t)). intros y.
  unfold isMarker, titleLabels. literals. reflexivity.
Qed.

Lemma parseLine_channel (st : ParserState) (t : jsstring) :
  parseLine st (js "Channel: " ++ t)
  = mkParser (videos st)
      (mkVideo (vid (currentVideo st)) (title (currentVideo st)) (Some (trim t))
         (url (currentVideo st)) (description (currentVideo st)))
      (counter st).
Proof.
  unfold parseLine.
  change (js "Channel: " ++ t) with (js "Channel:" ++ 32%N :: t).
  rewrite trim_label by done.
  rewrite <- (trimEnd_space_trim t). generalize (trimEnd (32%N :: t)). intros y.
  unfold isMarker, titleLabels, channelLabels. literals. reflexivity.
Qed.

Lemma parseLine_url (st : ParserState) (t : jsstring) :
  parseLine st (js "URL: " ++ t)
  = mkParser (videos st)
      (mkVideo (vid (currentVideo st)) (title (currentVideo st))
         (channel (currentVideo st)) (Some (trim t)) (description (currentVideo st)))
      (counter st).
Proof.
  unfold parseLine.
  change (js "URL: " ++ t) with (js "URL:" ++ 32%N :: t).
  rewrite trim_label by done.
  rewrite <- (trimEnd_space_trim t). generalize (trimEnd (32%N :: t)). intros y.
  unfold isMarker, titleLabels, channelLabels, urlLabels. literals. reflexivity.
Qed.

Lemma parseLine_description (st : ParserState) (t : jsstring) :
  parseLine st (js "Description: " ++ t)
  = mkParser (videos st)
      (mkVideo (vid (currentVideo st)) (title (currentVideo st))
         (channel (currentVideo st)) (url (currentVideo st)) (Some (trim t)))
      (counter st).
Proof.
  unfold parseLine.
  change (js "Description: " ++ t) with (js "Description:" ++ 32%N :: t).
  rewrite trim_label by done.
  rewrite <- (trimEnd_space_trim t). generalize (trimEnd (32%N :: t)). intros y.
  unfold isMarker, titleLabels, channelLabels, urlLabels, descriptionLabels.
  literals. reflexivity.
Qed.

(** The line [Video n] is taken for the start of an entry when the
    counter is [n]. *)
Lemma isMarker_video (n : Z) :
  isMarker n (trim (js "Video " ++ toString n)) = true.
Proof.
  change (js "Video " ++ toString n) with (js "Video" ++ 32%N :: toString n).
  rewrite trim_label by done.
  rewrite trimEnd_cons, (trimEnd_no_space _ (toString_no_space n)).
  unfold isMarker, toLowerCase. rewrite bind_app.
  change (js "Video" ≫= lowerUnit) with (js "video").
  rewrite startsWith_app, andb_true_l.
  apply orb_true_iff. left.
  destruct (toString n) as [|c s] eqn:Hn.
  - destruct (js "Video" ++ _); reflexivity.
  - rewrite <- Hn.
    pose proof (includes_app_r (toString n) (js "Video" ++ [32%N]) []) as H.
    by rewrite app_nil_r, <- app_assoc in H.
Qed.

Lemma parseLine_video (st : ParserState) :
  parseLine st (js "Video " ++ toString (counter st))
  = if isSet (title (currentVideo st)) && isSet (url (currentVideo st))
    then mkParser (videos st ++ [withId (currentVideo st) (counter st - 1)])
           emptyVideo (counter st + 1)
    else mkParser (videos st) (currentVideo st) (counter st + 1).
Proof. unfold parseLine. by rewrite isMarker_video. Qed.

(** An empty line changes nothing. *)
Lemma parseLine_empty (st : ParserState) : parseLine st [] = st.
Proof. reflexivity. Qed.

(** A whole block: whatever the accumulator held is flushed or
    overwritten, and the accumulator holds the fields of the block. *)
Lemma parse_block (vs : list VideoRecommendation) (cur : VideoRecommendation)
    (n : Z) (b : Block) :
  vid cur = None →
  foldl parseLine (mkParser vs cur n) (blockLines n b)
  = mkParser (vs ++ flushed cur (n - 1)) (candidate b) (n + 1).
Proof.
  intros Hid. unfold blockLines. cbn [foldl].
  pose proof (parseLine_video (mkParser vs cur n)) as Hm.
  cbn [counter currentVideo videos] in Hm. rewrite Hm. clear Hm.
  unfold flushed.
  destruct (isSet (title cur) && isSet (url cur));
    rewrite parseLine_empty, parseLine_description, parseLine_url,
      parseLine_channel, parseLine_title; cbn [counter currentVideo videos
      vid title channel url description emptyVideo].
  - reflexivity.
  - by rewrite app_nil_r, Hid.
Qed.

Lemma flushed_candidate (b : Block) (n : Z) :
  wellFormed b → flushed (candidate b) n = [withId (candidate b) n].
Proof.
  intros (_ & _ & _ & _ & Ht & Hu). unfold flushed, candidate. simpl.
  destruct (trim (blockTitle b)); [done|].
  destruct (trim (blockUrl b)); done.
Qed.

Lemma flush_blocks (blocks : list Block) :
  Forall wellFormed blocks →
  ∀ vs cur n, vid cur = None →
    flushLast (foldl parseLine (mkParser vs cur n) (linesFrom n blocks))
    = vs ++ flushed cur (n - 1) ++ numbered n blocks.
Proof.
  induction 1 as [|b blocks Hb Hbs IH]; intros vs cur n Hid.
  - simpl. unfold flushLast, flushed. simpl.
    destruct (isSet (title cur) && isSet (url cur)); by rewrite ?app_nil_r.
  - cbn [linesFrom]. rewrite foldl_app, parse_block by done.
    rewrite IH by done.
    replace (n + 1 - 1) with n by lia.
    rewrite flushed_candidate by done.
    rewrite <- !app_assoc. do 2 f_equal.
    unfold numbered. simpl. rewrite Z.add_0_r. f_equal.
    apply imap_ext. intros i x _. simpl. f_equal. lia.
Qed.

Lemma no_line_feed_literal (s : string) (t : jsstring) :
  bool_decide (10%N ∉ js s) = true → 10%N ∉ t → 10%N ∉ js s ++ t.
Proof.
  intros Hs Ht. apply bool_decide_eq_true in Hs.
  by apply not_elem_of_app.
Qed.

Lemma toString_no_line_feed (n : Z) : 10%N ∉ toString n.
Proof.
  intros Hin.
  pose proof (toString_no_space n) as Hall.
  rewrite Forall_forall in Hall. by specialize (Hall _ Hin).
Qed.

Lemma linesFrom_no_line_feed (blocks : list Block) :
  Forall wellFormed blocks →
  ∀ n, Forall (λ line, 10%N ∉ line) (linesFrom n blocks).
Proof.
  induction 1 as [|b blocks (Ht & Hc & Hu & Hd & _) _ IH]; intros n;
    cbn [linesFrom]; [constructor|].
  apply Forall_app. split; [|apply IH].
  unfold blockLines. repeat apply Forall_cons_2; try apply Forall_nil_2;
    try (by apply no_line_feed_literal).
  - apply no_line_feed_literal; [done|]. apply toString_no_line_feed.
  - apply not_elem_of_nil.
Qed.

(** Joining lines and splitting the text gives the lines back. *)
Lemma split_unlines (lines : list jsstring) :
  lines ≠ [] → Forall (λ line, 10%N ∉ line) lines →
  split 10 (unlines lines) = lines.
Proof.
  intros Hne Hall. induction Hall as [|line rest Hline Hrest IH]; [done|].
  destruct rest as [|line' rest].
  - simpl. by apply split_no_sep.
  - change (unlines (line :: line' :: rest))
      with (line ++ 10%N :: unlines (line' :: rest)).
    rewrite split_app, split_no_sep by done.
    by rewrite IH.
Qed.

Lemma renumber_numbered (n : Z) (blocks : list Block) :
  renumber (numbered n blocks)
  = imap (λ i b, withId (candidate b) (Z.of_nat i + 1)) (take 5 blocks).
Proof.
  apply list_eq. intros i.
  unfold renumber, numbered.
  rewrite !list_lookup_imap.
  destruct (decide (i < 5)%nat).
  - rewrite !lookup_take_lt, list_lookup_imap by done.
    by destruct (blocks !! i).
  - rewrite !lookup_take_ge by lia. done.
Qed.

End Format.

(** X1.  A text in the format the prompt asks for, whose blocks have all
    five lines, no line feed inside a field, and a title and a url that
    are not blank, is parsed back: the result is the first five blocks in
    order, every field trimmed, numbered from 1. *)
Theorem parseVideoResponse_format (blocks : list PromptFormat.Block) :
  Forall PromptFormat.wellFormed blocks →
  GeminiService.parseVideoResponse (PromptFormat.format blocks)
  = imap (λ i b, GeminiService.withId (PromptFormat.candidate b) (Z.of_nat i + 1))
      (take 5 blocks).
Proof.
  intros Hall. unfold GeminiService.parseVideoResponse, PromptFormat.format.
  destruct blocks as [|b blocks]; [reflexivity|].
  rewrite split_unlines.
  - unfold GeminiService.parseLines. rewrite flush_blocks by done.
    apply renumber_numbered.
  - done.
  - by apply linesFrom_no_line_feed.
Qed.

(** ** The parser on arbitrary text *)

Section Lines.

Import GeminiService PromptFormat.

Lemma parseLine_ignorable (st : ParserState) (line : jsstring) :
  ignorable line = true → parseLine st line = st.
Proof.
  unfold ignorable, parseLine, isMarker. intros H.
  repeat (apply andb_true_iff in H as [H ?]).
  repeat match goal with
         | H : negb _ = true |- _ => apply negb_true_iff in H; rewrite H
         end.
  reflexivity.
Qed.

(** A line that is not a video line never pushes a candidate. *)
Lemma parseLine_videos (st : ParserState) (line : jsstring) :
  videos (parseLine st line)
  = if isMarker (counter st) (trim line)
    then videos st ++ flushed (currentVideo st) (counter st - 1)
    else videos st.
Proof.
  unfold parseLine, flushed.
  repeat case_match; simpl; by rewrite ?app_nil_r.
Qed.

Lemma isMarker_videoLine (n : Z) (line : jsstring) :
  isMarker n (trim line) = true → videoLine line = true.
Proof. unfold isMarker, videoLine. by intros [? _]%andb_true_iff. Qed.

Lemma flushed_length (cur : VideoRecommendation) (n : Z) :
  (length (flushed cur n) ≤ 1)%nat.
Proof. unfold flushed. case_match; simpl; lia. Qed.

Lemma parseLines_length (lines : list jsstring) (st : ParserState) :
  (length (videos (foldl parseLine st lines))
   ≤ length (videos st) + length (filter (λ l, videoLine l = true) lines))%nat.
Proof.
  revert st. induction lines as [|line lines IH]; intros st; simpl; [lia|].
  etransitivity; [apply IH|].
  rewrite parseLine_videos.
  destruct (isMarker (counter st) (trim line)) eqn:Hm.
  - apply isMarker_videoLine in Hm.
    rewrite filter_cons_True by done.
    rewrite length_app. pose proof (flushed_length (currentVideo st) (counter st - 1)).
    simpl. lia.
  - destruct (decide (videoLine line = true)).
    + rewrite filter_cons_True by done. simpl. lia.
    + rewrite filter_cons_False by done. lia.
Qed.

Lemma flushLast_flushed (st : ParserState) :
  flushLast st = videos st ++ flushed (currentVideo st) (counter st - 1).
Proof. unfold flushLast, flushed. case_match; by rewrite ?app_nil_r. Qed.

Lemma fromLine_mono (lines lines' labels : list jsstring) (field : option jsstring) :
  lines ⊆ lines' → fromLine lines labels field → fromLine lines' labels field.
Proof.
  intros Hsub H t Ht. destruct (H t Ht) as (line & Hin & ?).
  exists line. split; [by apply Hsub|done].
Qed.

Lemma fromLines_mono (lines lines' : list jsstring) (v : VideoRecommendation) :
  lines ⊆ lines' → fromLines lines v → fromLines lines' v.
Proof.
  intros Hsub (? & ? & ? & ?). split_and!; by eapply fromLine_mono.
Qed.

Lemma fromLine_here (seen labels : list jsstring) (line : jsstring) :
  startsWithAny labels (trim line) = true →
  fromLine (seen ++ [line]) labels (Some (trim (stripPrefix labels (trim line)))).
Proof.
  intros Hl t Ht. exists line. split_and!; [set_solver|done|by simplify_eq].
Qed.

Lemma fromLines_withId (lines : list jsstring) (v : VideoRecommendation) (n : Z) :
  fromLines lines v → fromLines lines (withId v n).
Proof. done. Qed.

Lemma fromLines_empty (lines : list jsstring) : fromLines lines emptyVideo.
Proof. split_and!; intros t Ht; done. Qed.

(** Every iteration keeps the fields traceable to the lines read. *)
Lemma parseLine_fromLines (seen : list jsstring) (st : ParserState) (line : jsstring) :
  Forall (fromLines seen) (videos st) → fromLines seen (currentVideo st) →
  Forall (fromLines (seen ++ [line])) (videos (parseLine st line))
  ∧ fromLines (seen ++ [line]) (currentVideo (parseLine st line)).
Proof.
  intros Hvs Hcur.
  assert (seen ⊆ seen ++ [line]) as Hsub by set_solver.
  assert (Forall (fromLines (seen ++ [line])) (videos st)) as Hvs'.
  { eapply Forall_impl; [done|]. intros v. by apply fromLines_mono. }
  pose proof (fromLines_mono _ _ _ Hsub Hcur) as (Ht & Hc & Hu & Hd).
  unfold parseLine.
  repeat case_match; simpl; (split; [try done|]);
    try (split_and!; try done; by apply fromLine_here).
  all: try (apply Forall_app; split; [done|]; by apply Forall_singleton).
  all: try apply fromLines_empty.
  all: try by split_and!.
Qed.

Lemma parseLines_fromLines (lines seen : list jsstring) (st : ParserState) :
  Forall (fromLines seen) (videos st) → fromLines seen (currentVideo st) →
  Forall (fromLines (seen ++ lines)) (videos (foldl parseLine st lines))
  ∧ fromLines (seen ++ lines) (currentVideo (foldl parseLine st lines)).
Proof.
  revert seen st. induction lines as [|line lines IH]; intros seen st Hvs Hcur.
  - by rewrite app_nil_r.
  - simpl. destruct (parseLine_fromLines seen st line Hvs Hcur) as [Hvs' Hcur'].
    specialize (IH (seen ++ [line]) _ Hvs' Hcur').
    by rewrite <- app_assoc in IH.
Qed.

End Lines.

(** X2.  A line that, once trimmed, neither starts with [video] in any
    case nor with one of the labels is skipped: inserting it between two
    lines of a text does not change the result. *)
Theorem parseVideoResponse_ignores_line (before line after : jsstring) :
  10%N ∉ line →
  PromptFormat.ignorable line = true →
  GeminiService.parseVideoResponse (before ++ 10%N :: line ++ 10%N :: after)
  = GeminiService.parseVideoResponse (before ++ 10%N :: after).
Proof.
  intros Hlf Hign. unfold GeminiService.parseVideoResponse, GeminiService.parseLines.
  rewrite !split_app, (split_no_sep _ line Hlf).
  rewrite !foldl_app. simpl. by rewrite parseLine_ignorable.
Qed.

(** X3.  Every field of a returned candidate is the trimmed remainder of
    a line of the text that starts with a label of that field; the parser
    never makes up a title, channel, url or description. *)
Theorem parseVideoResponse_fields_from_text (text : jsstring)
    (v : GeminiService.VideoRecommendation) :
  v ∈ GeminiService.parseVideoResponse text →
  fromLines (split 10 text) v.
Proof.
  unfold GeminiService.parseVideoResponse, GeminiService.parseLines.
  intros Hin.
  destruct (parseLines_fromLines (split 10 text) []
              (GeminiService.mkParser [] GeminiService.emptyVideo 1))
    as [Hvs Hcur]; [constructor|apply fromLines_empty|].
  simpl in Hvs, Hcur.
  apply list_elem_of_lookup in Hin as [i Hi].
  rewrite renumber_lookup in Hi. apply fmap_Some in Hi as (w & Hw & ->).
  apply fromLines_withId.
  apply list_elem_of_lookup_2, (subseteq_take 5) in Hw.
  rewrite flushLast_flushed in Hw. apply elem_of_app in Hw as [Hw|Hw].
  - by eapply Forall_forall in Hvs.
  - unfold flushed in Hw. case_match; [|by apply elem_of_nil in Hw].
    apply list_elem_of_singleton in Hw as ->. by apply fromLines_withId.
Qed.

(** X4.  A candidate is completed only by the start of the next entry or
    by the end of the text: the number of candidates is at most one more
    than the number of lines that start with [video]. *)
Theorem parseVideoResponse_length_video_lines (text : jsstring) :
  (length (GeminiService.parseVideoResponse text)
   ≤ S (length (filter (λ l, PromptFormat.videoLine l = true) (split 10 text))))%nat.
Proof.
  unfold GeminiService.parseVideoResponse, GeminiService.parseLines.
  rewrite renumber_length, flushLast_flushed, length_app.
  pose proof (parseLines_length (split 10 text)
                (GeminiService.mkParser [] GeminiService.emptyVideo 1)) as H1.
  pose proof (flushed_length
                (GeminiService.currentVideo
                   (foldl GeminiService.parseLine
                      (GeminiService.mkParser [] GeminiService.emptyVideo 1)
                      (split 10 text)))
                (GeminiService.counter
                   (foldl GeminiService.parseLine
                      (GeminiService.mkParser [] GeminiService.emptyVideo 1)
                      (split 10 text)) - 1)) as H2.
  simpl in H1. lia.
Qed.

(** X5.  The labels of the two languages are interchangeable: a line
    with a Korean label is read like the line with the English one. *)
Theorem parseLine_label_synonyms (st : GeminiService.ParserState) (rest : jsstring) :
  GeminiService.parseLine st ([51228; 47785; 58]%N ++ rest)
  = GeminiService.parseLine st (js "Title:" ++ rest)
  ∧ GeminiService.parseLine st ([52292; 45328; 58]%N ++ rest)
    = GeminiService.parseLine st (js "Channel:" ++ rest)
  ∧ GeminiService.parseLine st ([47553; 53356; 58]%N ++ rest)
    = GeminiService.parseLine st (js "URL:" ++ rest)
  ∧ GeminiService.parseLine st (js "Link:" ++ rest)
    = GeminiService.parseLine st (js "URL:" ++ rest)
  ∧ GeminiService.parseLine st ([49444; 47749; 58]%N ++ rest)
    = GeminiService.parseLine st (js "Description:" ++ rest).
Proof.
  unfold GeminiService.parseLine.
  rewrite !trim_label by done.
  generalize (trimEnd rest). intros y.
  split_and!; reflexivity.
Qed.

(** ** The analysis on arbitrary data *)

Section Analysis.

Import GeminiService.

Lemma get_None (data : value) (k : jsstring) : get data k = None ↔ data = VNull.
Proof. destruct data; simpl; split; done. Qed.

(** The shape of every successful result. *)
Lemma parseAnalysis_Some (data : value) (a : VideoAnalysis) :
  parseAnalysis data = Some a →
  ∃ l, assessments a = imap resequence l
       ∧ get data (js "summary") = Some (summary a).
Proof.
  unfold parseAnalysis. intros H.
  destruct (get data (js "assessments")) as [found|]; [|done]. simpl in H.
  destruct (if truthy found then found else Some (VArr [])) as [[| | | |l|]|];
    try done.
  destruct (get data (js "summary")) as [s|]; [|done]. simpl in H.
  simplify_eq. by exists l.
Qed.

Lemma imap_resequence_ids (l : list value) :
  (λ o : gmap jsstring value, o !! js "id") <$> imap resequence l
  = (λ k, Some (VNum (Z.of_nat k))) <$> seq 1 (length l).
Proof.
  apply list_eq. intros i.
  rewrite !list_lookup_fmap, list_lookup_imap.
  destruct (l !! i) as [a|] eqn:Hi; simpl.
  - apply lookup_lt_Some in Hi. rewrite lookup_seq_lt by done. simpl.
    rewrite resequence_id.
    by replace (Z.of_nat (S i)) with (Z.of_nat i + 1) by lia.
  - apply lookup_ge_None in Hi. by rewrite lookup_seq_ge.
Qed.

(** The decimal indices under which a spread copies the elements of an
    array or a string never collide with a property name that starts
    with a letter. *)
Lemma index_keys_lookup {A} (f : nat → A → value) (l : list A) (k : jsstring) :
  (∀ n, toString n ≠ k) →
  (list_to_map (imap (λ i x, (toString (Z.of_nat i), f i x)) l)
     : gmap jsstring value) !! k = None.
Proof.
  intros Hk. apply not_elem_of_list_to_map_1.
  intros Hin. apply list_elem_of_fmap in Hin as ([k' v] & Hk' & Hin).
  simpl in Hk'. subst k'.
  apply list_elem_of_lookup in Hin as [i Hi].
  rewrite list_lookup_imap in Hi. apply fmap_Some in Hi as (x & _ & Hx).
  simplify_eq. by destruct (Hk (Z.of_nat i)).
Qed.

Lemma toString_not_word (c : N) (w : jsstring) (n : Z) :
  (57 < c)%N → toString n ≠ c :: w.
Proof.
  intros Hc Heq. pose proof (toString_head n) as H. rewrite Heq in H. lia.
Qed.

End Analysis.

(** X6.  [parseAnalysis] fails in exactly two cases: the data is [null],
    or its [assessments] property is truthy and not an array. *)
Theorem parseAnalysis_fails_iff (data : value) :
  GeminiService.parseAnalysis data = None
  ↔ data = VNull
    ∨ ∃ x, get data (js "assessments") = Some (Some x)
           ∧ truthy (Some x) = true ∧ ∀ l, x ≠ VArr l.
Proof.
  unfold GeminiService.parseAnalysis.
  destruct (get data (js "assessments")) as [found|] eqn:Hget.
  - assert (data ≠ VNull) as Hnn by (intros ->; done).
    assert (is_Some (get data (js "summary"))) as [s Hs].
    { destruct data; simpl; done. }
    simpl. rewrite Hs. simpl.
    destruct (truthy found) eqn:Ht.
    + destruct found as [x|]; [|done].
      destruct x; simpl; (split; [intros H|intros [H|(y & Hy & _ & Hna)]]);
        try done; simplify_eq; try (right; eexists; split_and!; done).
      by destruct (Hna l).
    + split; [done|]. intros [?|(y & Hy & Hty & _)]; [done|].
      simplify_eq. simpl in Ht. congruence.
  - apply get_None in Hget. simpl. split; [by left|done].
Qed.

(** X7.  Data that is a boolean, a number, a string or an array has no
    [assessments] and no [summary]: it is accepted, as an analysis with
    an undefined summary and no assessments. *)
Theorem parseAnalysis_not_an_object (data : value) :
  data ≠ VNull → (∀ m, data ≠ VObj m) →
  GeminiService.parseAnalysis data = Some (GeminiService.mkAnalysis None []).
Proof.
  intros Hnull Hobj.
  assert (∀ k c w, k = c :: w → (57 < c)%N → k ≠ js "length" →
            get data k = Some None) as Hget.
  { intros k c w -> Hc Hlen.
    destruct data; cbn [get spread]; try done.
    - rewrite decide_False by done.
      rewrite (index_keys_lookup (λ _ x, VStr [x])); [done|].
      intros n. by apply toString_not_word.
    - rewrite decide_False by done.
      rewrite (index_keys_lookup (λ _ x, x)); [done|].
      intros n. by apply toString_not_word.
    - by destruct (Hobj m). }
  unfold GeminiService.parseAnalysis.
  rewrite (Hget (js "assessments") 97%N (js "ssessments")) by done.
  simpl.
  by rewrite (Hget (js "summary") 115%N (js "ummary")) by done.
Qed.

(** X8.  Whatever the collaborator answered, the assessments of a
    resolved analysis carry the ids [1], ..., [N] in order. *)
Theorem analyzeVideoAndSuggest_ids (r : GeminiService.json_response)
    (a : GeminiService.VideoAnalysis) :
  GeminiService.analyzeVideoAndSuggest r = GeminiService.Resolved a →
  (λ o : gmap jsstring value, o !! js "id") <$> GeminiService.assessments a
  = (λ k, Some (VNum (Z.of_nat k))) <$> seq 1 (length (GeminiService.assessments a)).
Proof.
  unfold GeminiService.analyzeVideoAndSuggest. intros H.
  assert (∃ data, GeminiService.parseAnalysis data = Some a) as [data Hdata].
  { destruct r; try done.
    - exists (VObj ∅). by destruct (GeminiService.parseAnalysis (VObj ∅)); simplify_eq.
    - exists data. by destruct (GeminiService.parseAnalysis data); simplify_eq. }
  apply parseAnalysis_Some in Hdata as (l & -> & _).
  rewrite length_imap. apply imap_resequence_ids.
Qed.

(** ** The handlers on arbitrary states *)

Section Handlers.

Import GeminiService App.

Lemma setError_same (s : State) : setError (error s) s = s.
Proof. by destruct s. Qed.

Lemma orElse_nonEmpty (text : option jsstring) (fallback : jsstring) :
  fallback ≠ [] → orElse text fallback ≠ [].
Proof. by destruct text as [[|c t]|]. Qed.

Lemma generateLessonPlan_resolved (r : response) (plan : jsstring) :
  generateLessonPlan r = Resolved plan → plan ≠ [].
Proof.
  destruct r as [|text]; simpl; [done|]. intros H. simplify_eq.
  by apply orElse_nonEmpty.
Qed.

Lemma analysis_ids (r : json_response) (a : VideoAnalysis) :
  analyzeVideoAndSuggest r = Resolved a →
  assessmentsNumbered (GeminiService.assessments a).
Proof.
  unfold analyzeVideoAndSuggest, assessmentsNumbered. intros H.
  assert (∃ data, parseAnalysis data = Some a) as [data Hdata].
  { destruct r; try done.
    - exists (VObj ∅). by destruct (parseAnalysis (VObj ∅)); simplify_eq.
    - exists data. by destruct (parseAnalysis data); simplify_eq. }
  apply parseAnalysis_Some in Hdata as (l & -> & _).
  rewrite length_imap. apply imap_resequence_ids.
Qed.

Lemma searchVideos_numbered (r : response) (results : list VideoRecommendation) :
  searchVideos r = Resolved results → videosNumbered results.
Proof.
  destruct r as [|text]; simpl; [done|]. intros H. simplify_eq.
  unfold parseVideoResponse. split_and!.
  - rewrite renumber_length. lia.
  - apply renumber_complete, flushLast_complete, foldl_parseLine_complete.
    constructor.
  - apply renumber_ids.
Qed.

(** Back after a forward transition. *)
Lemma goBack_setStep (n : Z) (s : State) :
  0 < n → goBack (setStep n s) = setError None (setStep (n - 1) s).
Proof.
  intros Hn. unfold goBack. simpl.
  destruct (Z.ltb_spec 0 n); [done|lia].
Qed.

End Handlers.

(** X9.  A topic made of white space only is rejected before the
    service is asked: the state is unchanged whatever the collaborator
    would have answered. *)
Theorem handleTopicSubmit_blank (r : GeminiService.response) (s : App.State) :
  Forall (λ c, isWhiteSpace c = true) (App.topic s) →
  App.handleTopicSubmit r s = s.
Proof.
  intros H. unfold App.handleTopicSubmit.
  by rewrite (trim_all_space _ H).
Qed.

(** X10.  A transition that does not reach its next screen changes
    nothing but the error: the topic, the lists, the selections, the
    summary, the plan and the step are as before. *)
Theorem failed_transition_only_sets_error (s : App.State) :
  App.isLoading s = false →
  (∀ r, App.step (App.handleTopicSubmit r s) ≠ App.SELECT_VIDEO →
        ∃ e, App.handleTopicSubmit r s = App.setError e s)
  ∧ (∀ r, App.step (App.handleVideoSelect r s) ≠ App.SELECT_ASSESSMENT →
          ∃ e, App.handleVideoSelect r s = App.setError e s)
  ∧ (∀ r, App.step (App.handleAssessmentSelect r s) ≠ App.VIEW_PLAN →
          ∃ e, App.handleAssessmentSelect r s = App.setError e s).
Proof.
  intros Hload. destruct s as [st tp ld er vs sv sm asl sa lp].
  simpl in Hload. subst ld. split_and!; intros r.
  - unfold App.handleTopicSubmit. simpl.
    repeat case_match; simpl; intros Hstep; try done; by eexists.
  - unfold App.handleVideoSelect. simpl.
    repeat case_match; simpl; intros Hstep; try done; by eexists.
  - unfold App.handleAssessmentSelect. simpl.
    repeat case_match; simpl; intros Hstep; try done; by eexists.
Qed.

(** X11.  No handler leaves the four steps, on whatever screen it is
    called: from a step of [AppStep], every event leads to a step of
    [AppStep]. *)
Theorem handle_keeps_AppStep (e : App.event) (s : App.State) :
  App.isAppStep (App.step s) → App.isAppStep (App.step (App.handle e s)).
Proof.
  unfold App.isAppStep, App.INPUT_TOPIC, App.SELECT_VIDEO,
    App.SELECT_ASSESSMENT, App.VIEW_PLAN.
  intros Hs. destruct e; simpl; try done.
  - unfold App.handleTopicSubmit. repeat case_match; simpl; try done; tauto.
  - unfold App.handleVideoSelect. repeat case_match; simpl; try done; tauto.
  - unfold App.handleAssessmentSelect. repeat case_match; simpl; try done; tauto.
  - unfold App.goBack.
    destruct (Z.ltb_spec 0 (App.step s)); simpl; unfold App.INPUT_TOPIC,
      App.SELECT_VIDEO, App.SELECT_ASSESSMENT, App.VIEW_PLAN; lia.
  - destruct confirmed; simpl; [by left|done].
Qed.

(** X21.  Back undoes a forward transition except for what was fetched:
    from a state without error, going back after a successful submit,
    analysis or plan leads to the state before it with the new list of
    candidates, the new summary and assessments, or the new plan. *)
Theorem goBack_after_forward (s : App.State) :
  App.isLoading s = false → App.error s = None →
  (∀ r, App.step s = App.INPUT_TOPIC →
        App.step (App.handleTopicSubmit r s) = App.SELECT_VIDEO →
        App.goBack (App.handleTopicSubmit r s)
        = App.setVideos (App.videos (App.handleTopicSubmit r s)) s)
  ∧ (∀ r, App.step s = App.SELECT_VIDEO →
          App.step (App.handleVideoSelect r s) = App.SELECT_ASSESSMENT →
          App.goBack (App.handleVideoSelect r s)
          = App.setAssessments (App.assessments (App.handleVideoSelect r s))
              (App.setVideoSummary (App.videoSummary (App.handleVideoSelect r s)) s))
  ∧ (∀ r, App.step s = App.SELECT_ASSESSMENT →
          App.step (App.handleAssessmentSelect r s) = App.VIEW_PLAN →
          App.goBack (App.handleAssessmentSelect r s)
          = App.setLessonPlan (App.lessonPlan (App.handleAssessmentSelect r s)) s).
Proof.
  intros Hload Herr. destruct s as [st tp ld er vs sv sm asl sa lp].
  simpl in Hload, Herr. subst ld er. split_and!; intros r Hst; simpl in Hst; subst st.
  - unfold App.handleTopicSubmit. simpl.
    repeat case_match; simpl; intros Hstep; try done.
  - unfold App.handleVideoSelect. simpl.
    repeat case_match; simpl; intros Hstep; try done.
  - unfold App.handleAssessmentSelect. simpl.
    repeat case_match; simpl; intros Hstep; try done.
Qed.

(** ** Sessions with pending requests *)

Section LiveSessions.

Import GeminiService App.

(** An atomic handler is its two parts run one after the other. *)
Lemma handleTopicSubmit_parts (r : response) (s : State) :
  handleTopicSubmit r s
  = if negb (nonEmpty (trim (topic s))) then s
    else Live.settleTopicSubmit r (s |> setIsLoading true |> setError None).
Proof. reflexivity. Qed.

Lemma handleVideoSelect_parts (r : json_response) (s : State) :
  handleVideoSelect r s
  = match selectedVideo s with
    | None => s
    | Some _ => Live.settleVideoSelect r (s |> setIsLoading true |> setError None)
    end.
Proof. reflexivity. Qed.

Lemma handleAssessmentSelect_parts (r : response) (s : State) :
  handleAssessmentSelect r s
  = match selectedAssessment s, selectedVideo s with
    | Some _, Some _ =>
        Live.settleAssessmentSelect r (s |> setIsLoading true |> setError None)
    | _, _ => s
    end.
Proof. reflexivity. Qed.

Lemma run_app (l : Live.Session) (actions actions' : list Live.action) :
  Live.run l (actions ++ actions')
  = Live.run l actions ≫= λ l', Live.run l' actions'.
Proof.
  revert l. induction actions as [|a actions IH]; intros l; simpl; [done|].
  destruct (Live.act a l); simpl; [apply IH|done].
Qed.

(** Every event of an atomic session is one or two actions of a session
    with pending requests. *)
Lemma handle_is_live (e : event) (s : State) :
  isLoading s = false → enabled s e = true →
  ∃ actions,
    Live.run (Live.mkSession s []) actions = Some (Live.mkSession (handle e s) [])
    ∧ isLoading (handle e s) = false.
Proof.
  intros Hload Hen. destruct e.
  - exists [Live.TypeTopic t]. simpl. unfold Live.act. simpl in *. by rewrite Hen.
  - (* SubmitTopic *)
    destruct (negb (nonEmpty (trim (topic s)))) eqn:Hblank.
    + exists [Live.SubmitTopic]. simpl. unfold Live.act. simpl in *. rewrite Hen.
      unfold Live.perform, Live.beginTopicSubmit, handleTopicSubmit. simpl.
      by rewrite Hblank.
    + exists [Live.SubmitTopic; Live.SearchSettles r].
      simpl. unfold Live.act. simpl in *. rewrite Hen.
      unfold Live.perform, Live.beginTopicSubmit. simpl. rewrite Hblank. simpl.
      rewrite handleTopicSubmit_parts, Hblank.
      split; [done|]. unfold Live.settleTopicSubmit. by repeat case_match.
  - exists [Live.SelectVideo i]. simpl. unfold Live.act. simpl in *. by rewrite Hen.
  - (* ConfirmVideo *)
    destruct (selectedVideo s) as [v|] eqn:Hv.
    + exists [Live.ConfirmVideo; Live.AnalysisSettles r].
      simpl. unfold Live.act. simpl in *. rewrite Hen.
      unfold Live.perform, Live.beginVideoSelect. simpl. rewrite Hv. simpl.
      rewrite handleVideoSelect_parts, Hv.
      split; [done|]. unfold Live.settleVideoSelect. by repeat case_match.
    + exists [Live.ConfirmVideo]. simpl. unfold Live.act. simpl in *. rewrite Hen.
      unfold Live.perform, Live.beginVideoSelect, handleVideoSelect. simpl.
      by rewrite Hv.
  - exists [Live.SelectAssessment i]. simpl. unfold Live.act. simpl in *.
    by rewrite Hen.
  - (* ConfirmAssessment *)
    destruct (selectedAssessment s) as [a|] eqn:Ha;
      [destruct (selectedVideo s) as [v|] eqn:Hv|].
    + exists [Live.ConfirmAssessment; Live.PlanSettles r].
      simpl. unfold Live.act. simpl in *. rewrite Hen.
      unfold Live.perform, Live.beginAssessmentSelect. simpl. rewrite Ha, Hv. simpl.
      rewrite handleAssessmentSelect_parts, Ha, Hv.
      split; [done|]. unfold Live.settleAssessmentSelect. by repeat case_match.
    + exists [Live.ConfirmAssessment]. simpl. unfold Live.act. simpl in *.
      rewrite Hen.
      unfold Live.perform, Live.beginAssessmentSelect, handleAssessmentSelect. simpl.
      by rewrite Ha, Hv.
    + exists [Live.ConfirmAssessment]. simpl. unfold Live.act. simpl in *.
      rewrite Hen.
      unfold Live.perform, Live.beginAssessmentSelect, handleAssessmentSelect. simpl.
      by rewrite Ha.
  - exists [Live.GoBack]. simpl. unfold Live.act. simpl in *. rewrite Hen.
    split; [done|]. unfold goBack. by destruct (0 <? step s).
  - exists [Live.Reset confirmed]. simpl. unfold Live.act. simpl in *. rewrite Hen.
    split; [done|]. by destruct confirmed.
  - exists [Live.DismissError]. simpl. unfold Live.act. simpl in *. by rewrite Hen.
Qed.

Lemma run_is_live (events : list event) (s s' : State) :
  isLoading s = false → run s events = Some s' →
  ∃ actions,
    Live.run (Live.mkSession s []) actions = Some (Live.mkSession s' []).
Proof.
  revert s. induction events as [|e events IH]; intros s Hload Hrun; simpl in Hrun.
  - simplify_eq. by exists [].
  - destruct (enabled s e) eqn:Hen; [|done].
    destruct (handle_is_live e s Hload Hen) as (first & Hfirst & Hload').
    destruct (IH _ Hload' Hrun) as (rest & Hrest).
    exists (first ++ rest). rewrite run_app, Hfirst. done.
Qed.

End LiveSessions.

Section LiveInvariant.

Import GeminiService App.

Lemma enabled_unpack (s : State) (e : event) :
  enabled s e = true →
  match e with
  | SelectVideo i => is_Some (videos s !! i)
  | ConfirmVideo _ => is_Some (selectedVideo s)
  | SelectAssessment i => is_Some (assessments s !! i)
  | ConfirmAssessment _ => is_Some (selectedAssessment s)
  | _ => True
  end.
Proof.
  destruct e; simpl; try done; intros [_ Hsome]%andb_true_iff;
    by apply bool_decide_eq_true in Hsome.
Qed.

(** The controls that start something are on the screen only when
    nothing is loading. *)
Lemma enabled_idle (s : State) (e : event) :
  enabled s e = true →
  match e with
  | Reset _ | DismissError => True
  | _ => isLoading s = false
  end.
Proof.
  destruct e; simpl; try done; by destruct (isLoading s).
Qed.

Lemma videosNumbered_nil : videosNumbered [].
Proof. split_and!; [simpl; lia|constructor|done]. Qed.

Lemma exclusive_idle (s : State) (qs : list Live.request) :
  Live.exclusive (Live.mkSession s qs) → isLoading s = false → qs = [].
Proof. intros [[Hq _]|(q & _ & Hl)] Hidle; simpl in *; [done|congruence]. Qed.

Lemma exclusive_pending (s : State) (qs : list Live.request) (q : Live.request) :
  Live.exclusive (Live.mkSession s qs) → q ∈ qs → qs = [q].
Proof.
  intros [[Hq _]|(q' & Hq & _)] Hin; simpl in *; subst qs.
  - by apply elem_of_nil in Hin.
  - by apply list_elem_of_singleton in Hin as ->.
Qed.

Lemma settled_singleton (q : Live.request) : Live.settled q [q] = [].
Proof. simpl. by rewrite decide_True. Qed.

Lemma liveInvariant_initial : liveInvariant Live.initial.
Proof.
  unfold liveInvariant, Live.initial, Live.exclusive, initial, planOnlyAtEnd.
  simpl. split_and!; try done.
  - by left.
  - by left.
  - apply videosNumbered_nil.
Qed.

(** A click keeps what every session keeps. *)
Lemma click_liveInvariant (a : Live.action) (e : event) (l : Live.Session) :
  Live.control a = Some e → enabled (Live.cells l) e = true →
  liveInvariant l → liveInvariant (Live.perform a l).
Proof.
  intros Hc Hen (Hex & Hstep & Hvs & Has & Hplan & Hview & Hpend).
  destruct l as [s qs]. simpl in *.
  pose proof (enabled_step s e Hen) as Hat.
  pose proof (enabled_idle s e Hen) as Hidle.
  pose proof (plan_empty_before_end s Hplan) as Hempty.
  unfold liveInvariant, Live.exclusive, planOnlyAtEnd, isAppStep,
    INPUT_TOPIC, SELECT_VIDEO, SELECT_ASSESSMENT, VIEW_PLAN in *.
  destruct a; simpl in Hc; simplify_eq; simpl in *.
  - (* TypeTopic *) done.
  - (* SubmitTopic *)
    pose proof (exclusive_idle s qs Hex Hidle) as ->.
    unfold Live.beginTopicSubmit. simpl.
    destruct (negb (nonEmpty (trim (topic s)))); simpl; [done|].
    split_and!; try done.
    + right. by exists Live.Search.
    + intros _. apply Hempty. lia.
  - (* SelectVideo *) done.
  - (* ConfirmVideo *)
    pose proof (exclusive_idle s qs Hex Hidle) as ->.
    unfold Live.beginVideoSelect. simpl.
    destruct (selectedVideo s); simpl; [|done].
    split_and!; try done.
    + right. by exists Live.Analysis.
    + intros _. apply Hempty. lia.
  - (* SelectAssessment *) done.
  - (* ConfirmAssessment *)
    pose proof (exclusive_idle s qs Hex Hidle) as ->.
    unfold Live.beginAssessmentSelect. simpl.
    destruct (selectedAssessment s); simpl; [|done].
    destruct (selectedVideo s); simpl; [|done].
    split_and!; try done.
    + right. by exists Live.Plan.
    + intros _. apply Hempty. lia.
  - (* GoBack *)
    assert (lessonPlan s = []) as Hnone by (apply Hempty; lia).
    unfold goBack. destruct (Z.ltb_spec 0 (step s)); simpl;
      split_and!; try done; try lia.
  - (* Reset *)
    destruct confirmed; simpl; [|done].
    split_and!; try done; try lia.
    + by left.
    + apply videosNumbered_nil.
  - (* DismissError *) done.
Qed.

(** An answer that arrives keeps it too. *)
Lemma answer_liveInvariant (a : Live.action) (l : Live.Session) :
  Live.control a = None → Live.offered l a = true →
  liveInvariant l → liveInvariant (Live.perform a l).
Proof.
  intros Hc Hoff (Hex & Hstep & Hvs & Has & Hplan & Hview & Hpend).
  destruct l as [s qs]. simpl in *.
  destruct a; simpl in Hc; try done; simpl in Hoff;
    apply bool_decide_eq_true in Hoff;
    pose proof (exclusive_pending s qs _ Hex Hoff) as ->;
    assert (lessonPlan s = []) as Hnone by (by apply Hpend);
    unfold liveInvariant, Live.exclusive, planOnlyAtEnd, isAppStep,
      INPUT_TOPIC, SELECT_VIDEO, SELECT_ASSESSMENT, VIEW_PLAN in *;
    simpl; rewrite ?decide_True by done.
  - (* SearchSettles *)
    unfold Live.settleTopicSubmit.
    destruct (searchVideos r) as [results|msg] eqn:Hr; simpl.
    + apply searchVideos_numbered in Hr.
      destruct (decide (length results = 0%nat)); simpl;
        split_and!; try done; try lia; try tauto; try (left; done).
    + split_and!; try done; try lia; try (left; done).
  - (* AnalysisSettles *)
    unfold Live.settleVideoSelect.
    destruct (analyzeVideoAndSuggest r) as [result|msg] eqn:Hr; simpl.
    + apply analysis_ids in Hr.
      split_and!; try done; try lia; try tauto; try (left; done).
    + split_and!; try done; try lia; try (left; done).
  - (* PlanSettles *)
    unfold Live.settleAssessmentSelect.
    destruct (generateLessonPlan r) as [plan|msg] eqn:Hr; simpl.
    + apply generateLessonPlan_resolved in Hr.
      split_and!; try done; try lia; try tauto; try (left; done).
    + split_and!; try done; try lia; try (left; done).
Qed.

Lemma act_liveInvariant (a : Live.action) (l l' : Live.Session) :
  Live.act a l = Some l' → liveInvariant l → liveInvariant l'.
Proof.
  unfold Live.act. destruct (Live.offered l a) eqn:Hoff; [|done].
  intros [= <-] Hinv.
  destruct (Live.control a) as [e|] eqn:Hc.
  - eapply click_liveInvariant; [done| |done].
    destruct a; simpl in Hc, Hoff; simplify_eq; done.
  - by apply answer_liveInvariant.
Qed.

Lemma run_liveInvariant (actions : list Live.action) (l l' : Live.Session) :
  liveInvariant l → Live.run l actions = Some l' → liveInvariant l'.
Proof.
  revert l. induction actions as [|a actions IH]; intros l Hinv Hrun; simpl in Hrun.
  - by simplify_eq.
  - destruct (Live.act a l) as [l1|] eqn:Hact; [|done].
    eapply IH; [|done]. by eapply act_liveInvariant.
Qed.

End LiveInvariant.

Section Listed.

Import GeminiService App.

Lemma numbered_video_lookup (l : list VideoRecommendation) (i : nat)
    (c : VideoRecommendation) :
  videosNumbered l → l !! i = Some c → vid c = Some (Z.of_nat (S i)).
Proof.
  intros (_ & _ & Hids) Hi.
  pose proof (f_equal (λ x, x !! i) Hids) as H. simpl in H.
  rewrite !list_lookup_fmap, Hi in H. simpl in H.
  rewrite lookup_seq_lt in H by (by eapply lookup_lt_Some). simpl in H.
  by simplify_eq.
Qed.

Lemma numbered_assessment_lookup (l : list (gmap jsstring value)) (i : nat)
    (c : gmap jsstring value) :
  assessmentsNumbered l → l !! i = Some c →
  c !! js "id" = Some (VNum (Z.of_nat (S i))).
Proof.
  intros Hids Hi.
  pose proof (f_equal (λ x, x !! i) Hids) as H. simpl in H.
  rewrite !list_lookup_fmap, Hi in H. simpl in H.
  rewrite lookup_seq_lt in H by (by eapply lookup_lt_Some). simpl in H.
  by simplify_eq.
Qed.

(** In a numbered list an entry is listed by id exactly when its id is a
    position of the list. *)
Lemma videoListed_iff (l : list VideoRecommendation) (v : VideoRecommendation) :
  videosNumbered l →
  videoListed v l
  ↔ ∃ k : nat, vid v = Some (Z.of_nat k) ∧ (1 ≤ k ≤ length l)%nat.
Proof.
  intros Hl. split.
  - intros (c & Hc & Hid). apply list_elem_of_lookup in Hc as [i Hi].
    exists (S i). rewrite <- Hid. split; [by eapply numbered_video_lookup|].
    apply lookup_lt_Some in Hi. lia.
  - intros (k & Hid & Hk). destruct k as [|i]; [lia|].
    destruct (lookup_lt_is_Some_2 l i) as [c Hc]; [lia|].
    exists c. split; [by eapply list_elem_of_lookup_2|].
    rewrite Hid. by eapply numbered_video_lookup.
Qed.

Lemma assessmentListed_iff (l : list (gmap jsstring value)) (a : gmap jsstring value) :
  assessmentsNumbered l →
  assessmentListed a l
  ↔ ∃ k : nat, a !! js "id" = Some (VNum (Z.of_nat k)) ∧ (1 ≤ k ≤ length l)%nat.
Proof.
  intros Hl. split.
  - intros (c & Hc & Hid). apply list_elem_of_lookup in Hc as [i Hi].
    exists (S i). rewrite <- Hid. split; [by eapply numbered_assessment_lookup|].
    apply lookup_lt_Some in Hi. lia.
  - intros (k & Hid & Hk). destruct k as [|i]; [lia|].
    destruct (lookup_lt_is_Some_2 l i) as [c Hc]; [lia|].
    exists c. split; [by eapply list_elem_of_lookup_2|].
    rewrite Hid. by eapply numbered_assessment_lookup.
Qed.

(** Only the arrival of a search can take the selected video off the
    list, only the arrival of an analysis the selected assessment. *)
Lemma act_keeps_video_listed (a : Live.action) (l l' : Live.Session) :
  Live.act a l = Some l' → (∀ r, a ≠ Live.SearchSettles r) →
  selectedVideoListed (Live.cells l) → selectedVideoListed (Live.cells l').
Proof.
  unfold Live.act. destruct (Live.offered l a) eqn:Hoff; [|done].
  intros [= <-] Hnot Hlisted. destruct l as [s qs].
  destruct a; simpl in *; try done.
  - unfold Live.beginTopicSubmit. simpl. by case_match.
  - intros v Hv. simpl in Hv. exists v. split; [|done].
    by eapply list_elem_of_lookup_2.
  - unfold Live.beginVideoSelect. simpl. by case_match.
  - unfold Live.beginAssessmentSelect. simpl. by repeat case_match.
  - unfold goBack. by destruct (0 <? step s).
  - destruct confirmed; [|done]. intros v Hv. done.
  - by destruct (Hnot r).
  - unfold Live.settleVideoSelect. by case_match.
  - unfold Live.settleAssessmentSelect. by case_match.
Qed.

Lemma act_keeps_assessment_listed (a : Live.action) (l l' : Live.Session) :
  Live.act a l = Some l' → (∀ r, a ≠ Live.AnalysisSettles r) →
  selectedAssessmentListed (Live.cells l) →
  selectedAssessmentListed (Live.cells l').
Proof.
  unfold Live.act. destruct (Live.offered l a) eqn:Hoff; [|done].
  intros [= <-] Hnot Hlisted. destruct l as [s qs].
  destruct a; simpl in *; try done.
  - unfold Live.beginTopicSubmit. simpl. by case_match.
  - unfold Live.beginVideoSelect. simpl. by case_match.
  - intros x Hx. simpl in Hx. exists x. split; [|done].
    by eapply list_elem_of_lookup_2.
  - unfold Live.beginAssessmentSelect. simpl. by repeat case_match.
  - unfold goBack. by destruct (0 <? step s).
  - destruct confirmed; [|done]. intros x Hx. done.
  - unfold Live.settleTopicSubmit. by repeat case_match.
  - by destruct (Hnot r).
  - unfold Live.settleAssessmentSelect. by case_match.
Qed.

End Listed.

(** C1, amended.  In every state reached from the initial state by what
    can happen (the clicks the screens offer, a reset while a request is
    pending and the answers that arrive afterwards included), the plan
    is non-empty only on [VIEW_PLAN]; the selected video, when there is
    one, is in the list of candidates by id exactly when its id is one
    of the positions 1, ..., N of the list, and the selected assessment
    likewise, so that the invariant holds exactly when both are the
    case; and a selection that is listed stays listed through everything
    but the arrival of a search (for the video) or of an analysis (for
    the assessment). *)
Theorem invariant_up_to_stale_selection (actions : list Live.action)
    (l : Live.Session) :
  Live.run Live.initial actions = Some l →
  App.planOnlyAtEnd (Live.cells l)
  ∧ (App.selectedVideoListed (Live.cells l) ↔ Live.videoInRange (Live.cells l))
  ∧ (App.selectedAssessmentListed (Live.cells l)
     ↔ Live.assessmentInRange (Live.cells l))
  ∧ (App.invariant (Live.cells l)
     ↔ Live.videoInRange (Live.cells l) ∧ Live.assessmentInRange (Live.cells l))
  ∧ (∀ a l', Live.act a l = Some l' →
       ((∀ r, a ≠ Live.SearchSettles r) →
        App.selectedVideoListed (Live.cells l) →
        App.selectedVideoListed (Live.cells l'))
       ∧ ((∀ r, a ≠ Live.AnalysisSettles r) →
          App.selectedAssessmentListed (Live.cells l) →
          App.selectedAssessmentListed (Live.cells l'))).
Proof.
  intros Hrun.
  destruct (run_liveInvariant actions _ _ liveInvariant_initial Hrun)
    as (_ & _ & Hvs & Has & Hplan & _).
  assert (App.selectedVideoListed (Live.cells l) ↔ Live.videoInRange (Live.cells l))
    as Hv.
  { unfold App.selectedVideoListed, Live.videoInRange.
    split; intros H v Hsel; apply (videoListed_iff _ _ Hvs); by apply H. }
  assert (App.selectedAssessmentListed (Live.cells l)
          ↔ Live.assessmentInRange (Live.cells l)) as Ha.
  { unfold App.selectedAssessmentListed, Live.assessmentInRange.
    split; intros H a Hsel; apply (assessmentListed_iff _ _ Has); by apply H. }
  split_and!; try done.
  - unfold App.invariant. rewrite Hv, Ha. tauto.
  - intros a l' Hact. split.
    + by apply act_keeps_video_listed.
    + by apply act_keeps_assessment_listed.
Qed.

(** X12.  In every state of a session, whatever is pending, the list of
    candidates is one that [parseVideoResponse] can return (at most
    five, each with a title and a url, numbered 1, ..., N) and the
    assessments are numbered 1, ..., N as well. *)
Theorem session_lists_numbered (actions : list Live.action) (l : Live.Session) :
  Live.run Live.initial actions = Some l →
  videosNumbered (App.videos (Live.cells l))
  ∧ assessmentsNumbered (App.assessments (Live.cells l)).
Proof.
  intros Hrun.
  destruct (run_liveInvariant actions _ _ liveInvariant_initial Hrun)
    as (_ & _ & Hvs & Has & _).
  done.
Qed.

(** X13.  In every state of a session at most one request is pending
    and the loader shows exactly while one is; the step is one of the
    four, the plan is empty while a request is pending, and it is not
    empty on [VIEW_PLAN]. *)
Theorem session_one_request (actions : list Live.action) (l : Live.Session) :
  Live.run Live.initial actions = Some l →
  Live.exclusive l
  ∧ App.isAppStep (App.step (Live.cells l))
  ∧ (Live.pending l ≠ [] → App.lessonPlan (Live.cells l) = [])
  ∧ (App.step (Live.cells l) = App.VIEW_PLAN → App.lessonPlan (Live.cells l) ≠ []).
Proof.
  intros Hrun.
  destruct (run_liveInvariant actions _ _ liveInvariant_initial Hrun)
    as (Hex & Hstep & _ & _ & _ & Hview & Hpend).
  done.
Qed.

Section Highlight.

Import GeminiService App.

Lemma isSelected_true (sel : option VideoRecommendation) (v : VideoRecommendation) :
  Cards.isSelected sel v = true ↔ vid v = sel ≫= vid.
Proof. unfold Cards.isSelected. rewrite bool_decide_eq_true. split; done. Qed.

Lemma highlighted_at_most_one (sel : option VideoRecommendation)
    (l : list VideoRecommendation) :
  NoDup (vid <$> l) →
  (length (filter (λ v, Cards.isSelected sel v = true) l) ≤ 1)%nat.
Proof.
  induction l as [|a l IH]; simpl; [lia|].
  intros [Ha Hl]%NoDup_cons.
  destruct (decide (Cards.isSelected sel a = true)) as [Hsel|Hsel].
  - rewrite filter_cons_True by done. simpl.
    assert (filter (λ v, Cards.isSelected sel v = true) l = []) as ->; [|simpl; lia].
    destruct (filter _ l) as [|b l'] eqn:Hf; [done|]. destruct Ha.
    assert (b ∈ filter (λ v, Cards.isSelected sel v = true) l) as Hb
      by (rewrite Hf; left).
    apply list_elem_of_filter in Hb as [Hselb Hb].
    apply isSelected_true in Hsel, Hselb.
    apply list_elem_of_fmap. exists b. split; [congruence|done].
  - rewrite filter_cons_False by done. by apply IH.
Qed.

Lemma videosNumbered_NoDup (l : list VideoRecommendation) :
  videosNumbered l → NoDup (vid <$> l).
Proof.
  intros (_ & _ & ->). apply NoDup_fmap_2; [|apply NoDup_seq].
  intros x y H. simplify_eq. lia.
Qed.

End Highlight.

(** X14.  In every state of a session, whatever is pending, at most one
    video card is marked as selected, and exactly one when the selected
    video is in the list by id. *)
Theorem session_one_card_selected (actions : list Live.action) (l : Live.Session) :
  Live.run Live.initial actions = Some l →
  let s := Live.cells l in
  (length (filter (λ v, Cards.isSelected (App.selectedVideo s) v = true)
             (App.videos s)) ≤ 1)%nat
  ∧ (∀ v, App.selectedVideo s = Some v → App.videoListed v (App.videos s) →
       length (filter (λ v, Cards.isSelected (App.selectedVideo s) v = true)
                 (App.videos s)) = 1%nat).
Proof.
  intros Hrun s.
  destruct (run_liveInvariant actions _ _ liveInvariant_initial Hrun)
    as (_ & _ & Hvs & _).
  pose proof (highlighted_at_most_one (App.selectedVideo s) (App.videos s)
                (videosNumbered_NoDup _ Hvs)) as Hle.
  split; [done|]. intros v Hv (c & Hc & Hid).
  assert (c ∈ filter (λ v, Cards.isSelected (App.selectedVideo s) v = true)
                (App.videos s)) as Hin.
  { apply list_elem_of_filter. split; [|done].
    apply isSelected_true. by rewrite Hv. }
  destruct (filter _ (App.videos s)) as [|x [|y rest]]; simpl in *;
    [by apply elem_of_nil in Hin|done|lia].
Qed.

(** X15.  An analysis without assessments is not an error: the handler
    moves on to [SELECT_ASSESSMENT] with an empty list and no message,
    and on that screen nothing can be selected or confirmed; only Back
    and the reset are offered. *)
Theorem empty_analysis_dead_end (r : GeminiService.json_response)
    (a : GeminiService.VideoAnalysis) (s : App.State) :
  is_Some (App.selectedVideo s) →
  App.selectedAssessment s = None →
  GeminiService.analyzeVideoAndSuggest r = GeminiService.Resolved a →
  GeminiService.assessments a = [] →
  let s' := App.handleVideoSelect r s in
  App.step s' = App.SELECT_ASSESSMENT
  ∧ App.assessments s' = []
  ∧ App.error s' = None
  ∧ ∀ e, App.enabled s' e = true → e = App.GoBack ∨ ∃ c, e = App.Reset c.
Proof.
  intros [v Hv] Hsa Hr Ha. simpl.
  unfold App.handleVideoSelect. rewrite Hv, Hr. simpl. rewrite Ha.
  split_and!; try done.
  intros e He. destruct e; simpl in He; try done; eauto.
  all: repeat (apply andb_true_iff in He as [He ?]).
  all: repeat match goal with
              | H : bool_decide _ = true |- _ => apply bool_decide_eq_true in H
              end.
  all: try (rewrite Hsa in *).
  all: try (by match goal with H : is_Some _ |- _ => destruct H end).
Qed.

(** X16.  In every state of a session, whatever is pending, the
    indicator shows the steps before the current one as completed, the
    current one with the ring, and the others as upcoming; the labels
    are blue up to and including the current step. *)
Theorem session_indicator (actions : list Live.action) (l : Live.Session) :
  Live.run Live.initial actions = Some l →
  let n := Z.to_nat (App.step (Live.cells l)) in
  StepIndicator.look <$> StepIndicator.render (App.step (Live.cells l))
  = replicate n StepIndicator.Completed ++ [StepIndicator.Current]
    ++ replicate (3 - n) StepIndicator.Upcoming
  ∧ StepIndicator.labelActive <$> StepIndicator.render (App.step (Live.cells l))
    = replicate (S n) true ++ replicate (3 - n) false.
Proof.
  intros Hrun.
  destruct (run_liveInvariant actions _ _ liveInvariant_initial Hrun)
    as (_ & Hstep & _).
  destruct Hstep as [-> | [-> | [-> | ->]]]; by vm_compute.
Qed.

(** ** The export *)

Section Replace.

Import DocsExport.

Lemma startsWith_length (p s : jsstring) :
  startsWith p s = true → (length p ≤ length s)%nat.
Proof. intros [r ->]%startsWith_spec. rewrite length_app. lia. Qed.

Lemma startsWith_prefix (p q s : jsstring) :
  startsWith (p ++ q) s = true → startsWith p s = true.
Proof.
  intros [r ->]%startsWith_spec. rewrite <- app_assoc. apply startsWith_app.
Qed.

Lemma includes_prefix (p q s : jsstring) :
  includes p s = false → includes (p ++ q) s = false.
Proof.
  induction s as [|c s IH]; simpl.
  - intros H%orb_false_iff. destruct H as [H _].
    destruct (startsWith (p ++ q) []) eqn:Hp; [|done].
    apply startsWith_prefix in Hp. congruence.
  - intros [H1 H2]%orb_false_iff. rewrite IH by done.
    destruct (startsWith (p ++ q) (c :: s)) eqn:Hp; [|done].
    apply startsWith_prefix in Hp. congruence.
Qed.

(** Without a match the text is left as it is. *)
Lemma replaceAll_absent (pat rep s : jsstring) :
  includes pat s = false → replaceAll pat rep s = s.
Proof.
  unfold replaceAll. induction s as [|c s IH]; [done|].
  cbn [includes replaceAll_go]. intros [H1 H2]%orb_false_iff.
  rewrite H1. by rewrite IH.
Qed.

(** The code units of a match are passed over. *)
Lemma replaceAll_go_skip (pat rep x s : jsstring) :
  replaceAll_go pat rep (length x) (x ++ s) = replaceAll_go pat rep 0 s.
Proof. induction x as [|c x IH]; simpl; [done|]. by destruct s. Qed.

Lemma replaceAll_match (c : N) (pat rep s : jsstring) :
  replaceAll (c :: pat) rep ((c :: pat) ++ s) = rep ++ replaceAll (c :: pat) rep s.
Proof.
  unfold replaceAll. cbn [replaceAll_go app].
  pose proof (startsWith_app (c :: pat) s) as H. cbn [app] in H. rewrite H.
  replace (length (c :: pat) - 1)%nat with (length pat) by (simpl; lia).
  by rewrite replaceAll_go_skip.
Qed.

(** No match of a pattern whose first code unit does not come back in it
    can begin before that code unit and go past it. *)
Lemma startsWith_before (c : N) (q x y : jsstring) :
  c ∉ q → startsWith q (x ++ c :: y) = startsWith q x.
Proof.
  revert x. induction q as [|d q IH]; intros x Hc; [done|].
  apply not_elem_of_cons in Hc as [Hd Hc].
  destruct x as [|e x]; simpl.
  - destruct (N.eqb_spec d c); [congruence|done].
  - by rewrite IH.
Qed.

(** The text before an occurrence of that code unit is rewritten on its
    own. *)
Lemma replaceAll_go_cut (c : N) (pat rep a y : jsstring) (k : nat) :
  c ∉ pat → (k ≤ length a)%nat →
  replaceAll_go (c :: pat) rep k (a ++ c :: y)
  = replaceAll_go (c :: pat) rep k a ++ replaceAll_go (c :: pat) rep 0 (c :: y).
Proof.
  intros Hc. remember (replaceAll_go (c :: pat) rep 0 (c :: y)) as tail.
  revert k. induction a as [|d a IH]; intros k Hk.
  - simpl in Hk. replace k with 0%nat by lia. by subst tail.
  - cbn [app replaceAll_go]. destruct k as [|k].
    + cbn [startsWith]. rewrite startsWith_before by done.
      destruct ((c =? d)%N && startsWith pat a) eqn:Hm.
      * apply andb_true_iff in Hm as [_ Hm%startsWith_length].
        replace (length (c :: pat) - 1)%nat with (length pat) by (simpl; lia).
        rewrite IH by lia. by rewrite app_assoc.
      * rewrite IH by lia. done.
    + apply IH. simpl in Hk. lia.
Qed.

Lemma replaceAll_cut (c : N) (pat rep a y : jsstring) :
  c ∉ pat →
  replaceAll (c :: pat) rep (a ++ c :: y)
  = replaceAll (c :: pat) rep a ++ replaceAll (c :: pat) rep (c :: y).
Proof. intros Hc. apply replaceAll_go_cut; [done|lia]. Qed.

End Replace.

Section InjectStyles.

Import DocsExport.

Lemma replaceAll_cut_at (c : N) (pat rep a z : jsstring) :
  c ∉ pat → head z = Some c →
  replaceAll (c :: pat) rep (a ++ z)
  = replaceAll (c :: pat) rep a ++ replaceAll (c :: pat) rep z.
Proof.
  intros Hc Hz. destruct z as [|d z]; [done|]. simpl in Hz. simplify_eq.
  by apply replaceAll_cut.
Qed.

Ltac absent := apply (bool_decide_unpack _); vm_compute; exact I.

(** The three replacements at a cut before [<]. *)
Lemma tables_cut (a z : jsstring) :
  head z = Some 60%N →
  replaceAll (js "<table") tableOpen (a ++ z)
  = replaceAll (js "<table") tableOpen a ++ replaceAll (js "<table") tableOpen z.
Proof.
  change (js "<table") with (60%N :: js "table").
  apply replaceAll_cut_at. absent.
Qed.

Lemma headers_cut (a z : jsstring) :
  head z = Some 60%N →
  replaceAll (js "<th") thOpen (a ++ z)
  = replaceAll (js "<th") thOpen a ++ replaceAll (js "<th") thOpen z.
Proof.
  change (js "<th") with (60%N :: js "th").
  apply replaceAll_cut_at. absent.
Qed.

Lemma cells_cut (a z : jsstring) :
  head z = Some 60%N →
  replaceAll (js "<td") tdOpen (a ++ z)
  = replaceAll (js "<td") tdOpen a ++ replaceAll (js "<td") tdOpen z.
Proof.
  change (js "<td") with (60%N :: js "td").
  apply replaceAll_cut_at. absent.
Qed.

(** Each replacement reads through the openings the others handle. *)
Lemma tables_through_th (y : jsstring) :
  replaceAll (js "<table") tableOpen (js "<th" ++ y)
  = js "<th" ++ replaceAll (js "<table") tableOpen y.
Proof. reflexivity. Qed.

Lemma tables_through_td (y : jsstring) :
  replaceAll (js "<table") tableOpen (js "<td" ++ y)
  = js "<td" ++ replaceAll (js "<table") tableOpen y.
Proof. reflexivity. Qed.

Lemma headers_through_tableOpen (y : jsstring) :
  replaceAll (js "<th") thOpen (tableOpen ++ y)
  = tableOpen ++ replaceAll (js "<th") thOpen y.
Proof. reflexivity. Qed.

Lemma headers_through_td (y : jsstring) :
  replaceAll (js "<th") thOpen (js "<td" ++ y)
  = js "<td" ++ replaceAll (js "<th") thOpen y.
Proof. reflexivity. Qed.

Lemma cells_through_tableOpen (y : jsstring) :
  replaceAll (js "<td") tdOpen (tableOpen ++ y)
  = tableOpen ++ replaceAll (js "<td") tdOpen y.
Proof. reflexivity. Qed.

Lemma cells_through_thOpen (y : jsstring) :
  replaceAll (js "<td") tdOpen (thOpen ++ y)
  = thOpen ++ replaceAll (js "<td") tdOpen y.
Proof. reflexivity. Qed.

Lemma injectStyles_table (a b : jsstring) :
  injectStyles (a ++ js "<table" ++ b) = injectStyles a ++ tableOpen ++ injectStyles b.
Proof.
  unfold injectStyles.
  rewrite tables_cut by done.
  change (js "<table" ++ b) with ((60%N :: js "table") ++ b).
  change (js "<table") with (60%N :: js "table") at 2.
  rewrite replaceAll_match.
  change (60%N :: js "table") with (js "<table").
  rewrite headers_cut by done. rewrite headers_through_tableOpen.
  rewrite cells_cut by done. by rewrite cells_through_tableOpen.
Qed.

Lemma injectStyles_th (a b : jsstring) :
  injectStyles (a ++ js "<th" ++ b) = injectStyles a ++ thOpen ++ injectStyles b.
Proof.
  unfold injectStyles.
  rewrite tables_cut by done. rewrite tables_through_th.
  rewrite headers_cut by done.
  change (js "<th" ++ replaceAll (js "<table") tableOpen b)
    with ((60%N :: js "th") ++ replaceAll (js "<table") tableOpen b).
  change (js "<th") with (60%N :: js "th") at 2.
  rewrite replaceAll_match.
  change (60%N :: js "th") with (js "<th").
  rewrite cells_cut by done. by rewrite cells_through_thOpen.
Qed.

Lemma injectStyles_td (a b : jsstring) :
  injectStyles (a ++ js "<td" ++ b) = injectStyles a ++ tdOpen ++ injectStyles b.
Proof.
  unfold injectStyles.
  rewrite tables_cut by done. rewrite tables_through_td.
  rewrite headers_cut by done. rewrite headers_through_td.
  rewrite cells_cut by done.
  change (js "<td" ++ ?y) with ((60%N :: js "td") ++ y).
  change (js "<td" ++ replaceAll (js "<th") thOpen (replaceAll (js "<table") tableOpen b))
    with ((60%N :: js "td")
          ++ replaceAll (js "<th") thOpen (replaceAll (js "<table") tableOpen b)).
  change (js "<td") with (60%N :: js "td") at 2.
  rewrite replaceAll_match.
  by change (60%N :: js "td") with (js "<td").
Qed.

Lemma injectStyles_ead (b : jsstring) :
  injectStyles (js "ead>" ++ b) = js "ead>" ++ injectStyles b.
Proof. reflexivity. Qed.

Lemma injectStyles_absent (html : jsstring) :
  includes (js "<t") html = false → injectStyles html = html.
Proof.
  intros H. unfold injectStyles.
  rewrite (replaceAll_absent (js "<table")), (replaceAll_absent (js "<th")),
    (replaceAll_absent (js "<td")); try done.
  - by apply (includes_prefix (js "<t") (js "d")).
  - by apply (includes_prefix (js "<t") (js "h")).
  - by apply (includes_prefix (js "<t") (js "able")).
Qed.

End InjectStyles.

(** X17.  Markup in which no tag starts with [<t] (no table) goes to the
    clipboard unchanged inside the wrapping [div]. *)
Theorem styledHtml_without_tables (html : jsstring) :
  includes (js "<t") html = false →
  DocsExport.styledHtml html
  = DocsExport.wrapperOpen ++ html ++ DocsExport.wrapperClose.
Proof.
  intros H. unfold DocsExport.styledHtml. by rewrite injectStyles_absent.
Qed.

(** X18.  Every [<table], [<th] and [<td] gets its attributes wherever
    it stands: the markup before and the markup after are styled on
    their own. *)
Theorem injectStyles_every_opening (a b : jsstring) :
  DocsExport.injectStyles (a ++ js "<table" ++ b)
  = DocsExport.injectStyles a ++ DocsExport.tableOpen ++ DocsExport.injectStyles b
  ∧ DocsExport.injectStyles (a ++ js "<th" ++ b)
    = DocsExport.injectStyles a ++ DocsExport.thOpen ++ DocsExport.injectStyles b
  ∧ DocsExport.injectStyles (a ++ js "<td" ++ b)
    = DocsExport.injectStyles a ++ DocsExport.tdOpen ++ DocsExport.injectStyles b.
Proof.
  split_and!; [apply injectStyles_table|apply injectStyles_th|apply injectStyles_td].
Qed.

(** X19.  The replacement of [<th] does not look at what follows: the
    opening tag [<thead>] of a rendered table is rewritten too, into the
    styled [<th] followed by [ead>]. *)
Theorem injectStyles_thead (a b : jsstring) :
  DocsExport.injectStyles (a ++ js "<thead>" ++ b)
  = DocsExport.injectStyles a ++ DocsExport.thOpen ++ js "ead>"
    ++ DocsExport.injectStyles b.
Proof.
  change (js "<thead>" ++ b) with (js "<th" ++ js "ead>" ++ b).
  by rewrite injectStyles_th, injectStyles_ead.
Qed.


(** X22.  A reset does not cancel a pending request: when the header
    button is used while the analysis (or the plan) is awaited and the
    answer then arrives, the app moves on to [SELECT_ASSESSMENT] (or
    [VIEW_PLAN]) with the list of candidates empty and nothing
    selected. *)
Theorem reset_does_not_cancel (s : App.State) :
  App.INPUT_TOPIC < App.step s →
  (∀ r a, GeminiService.analyzeVideoAndSuggest r = GeminiService.Resolved a →
     ∃ s', Live.run (Live.mkSession s [Live.Analysis])
             [Live.Reset true; Live.AnalysisSettles r]
           = Some (Live.mkSession s' [])
           ∧ App.step s' = App.SELECT_ASSESSMENT
           ∧ App.videos s' = [] ∧ App.selectedVideo s' = None
           ∧ App.assessments s' = GeminiService.assessments a)
  ∧ (∀ r plan, GeminiService.generateLessonPlan r = GeminiService.Resolved plan →
       ∃ s', Live.run (Live.mkSession s [Live.Plan])
               [Live.Reset true; Live.PlanSettles r]
             = Some (Live.mkSession s' [])
             ∧ App.step s' = App.VIEW_PLAN
             ∧ App.videos s' = [] ∧ App.selectedVideo s' = None
             ∧ App.selectedAssessment s' = None
             ∧ App.lessonPlan s' = plan).
Proof.
  intros Hstep.
  assert (∀ qs, Live.act (Live.Reset true) (Live.mkSession s qs)
                = Some (Live.mkSession (App.resetApp true s) qs)) as Hreset.
  { intros qs. unfold Live.act, Live.offered.
    cbn [Live.control Live.cells App.enabled].
    by rewrite bool_decide_eq_true_2. }
  split.
  - intros r a Hr. eexists. split.
    + cbn [Live.run]. rewrite Hreset. cbn [Live.run].
      unfold Live.act, Live.offered. cbn [Live.pending].
      rewrite bool_decide_eq_true_2 by left.
      cbn [Live.perform Live.cells Live.pending].
      by rewrite settled_singleton.
    + unfold Live.settleVideoSelect. rewrite Hr. done.
  - intros r plan Hr. eexists. split.
    + cbn [Live.run]. rewrite Hreset. cbn [Live.run].
      unfold Live.act, Live.offered. cbn [Live.pending].
      rewrite bool_decide_eq_true_2 by left.
      cbn [Live.perform Live.cells Live.pending].
      by rewrite settled_singleton.
    + unfold Live.settleAssessmentSelect. rewrite Hr. done.
Qed.

(** ** The properties at sample inputs *)

Ltac computed := vm_compute; reflexivity.
Ltac decided := apply (bool_decide_unpack _); vm_compute; exact I.

Lemma parseVideoResponse_format_witness :
  GeminiService.title
    <$> GeminiService.parseVideoResponse (PromptFormat.format MoreSamples.sixBlocks)
  = [Some (js "Newton"); Some (js "Force"); Some (js "Mass"); Some (js "Inertia");
     Some (js "Momentum")]
  ∧ GeminiService.url
      <$> GeminiService.parseVideoResponse (PromptFormat.format MoreSamples.sixBlocks)
    = [Some (js "https://youtu.be/1"); Some (js "https://youtu.be/2");
       Some (js "https://youtu.be/3"); Some (js "https://youtu.be/4");
       Some (js "https://youtu.be/5")].
Proof.
  rewrite (parseVideoResponse_format MoreSamples.sixBlocks).
  - split; computed.
  - unfold MoreSamples.sixBlocks.
    repeat (apply Forall_cons_2 || apply Forall_nil_2);
      unfold PromptFormat.wellFormed; split_and!; decided.
Defined.

Lemma parseVideoResponse_ignores_line_witness :
  GeminiService.parseVideoResponse
    ((js "Video 1" ++ 10%N :: js "Title: a")
     ++ 10%N :: MoreSamples.sentence ++ 10%N :: js "URL: b")
  = [GeminiService.mkVideo (Some 1) (Some (js "a")) None (Some (js "b")) None].
Proof.
  rewrite (parseVideoResponse_ignores_line
             (js "Video 1" ++ 10%N :: js "Title: a") MoreSamples.sentence (js "URL: b")).
  - computed.
  - decided.
  - computed.
Defined.

Lemma parseVideoResponse_fields_from_text_witness :
  fromLines (split 10 Samples.titleAndUrlOnly)
    (GeminiService.mkVideo (Some 1) (Some (js "a")) None (Some (js "b")) None).
Proof.
  apply parseVideoResponse_fields_from_text.
  replace (GeminiService.parseVideoResponse Samples.titleAndUrlOnly)
    with [GeminiService.mkVideo (Some 1) (Some (js "a")) None (Some (js "b")) None]
    by computed.
  left.
Defined.

Lemma parseAnalysis_not_an_object_witness :
  GeminiService.parseAnalysis (VArr [VNum 1; VStr (js "x")])
  = Some (GeminiService.mkAnalysis None []).
Proof.
  apply parseAnalysis_not_an_object; [discriminate|]. intros m. discriminate.
Defined.

Lemma analyzeVideoAndSuggest_ids_witness :
  ∃ a, GeminiService.analyzeVideoAndSuggest
         (GeminiService.Parsed (VObj Samples.threeAssessments))
       = GeminiService.Resolved a
       ∧ (λ o : gmap jsstring value, o !! js "id") <$> GeminiService.assessments a
         = [Some (VNum 1); Some (VNum 2); Some (VNum 3)].
Proof.
  eexists. split; [computed|].
  etransitivity.
  - apply (analyzeVideoAndSuggest_ids
             (GeminiService.Parsed (VObj Samples.threeAssessments))). computed.
  - computed.
Defined.

Lemma handleTopicSubmit_blank_witness :
  App.handleTopicSubmit (GeminiService.Text (Some Samples.fiveBlocks))
    MoreSamples.blankTopic
  = MoreSamples.blankTopic.
Proof.
  apply handleTopicSubmit_blank. unfold MoreSamples.blankTopic. simpl.
  repeat constructor.
Defined.

Lemma failed_transition_only_sets_error_witness :
  ∃ e, MoreSamples.failedSearch
       = App.setError e (App.setTopic (js "t") App.initial).
Proof.
  destruct (failed_transition_only_sets_error (App.setTopic (js "t") App.initial))
    as (Hsubmit & _); [reflexivity|].
  apply (Hsubmit GeminiService.Failed). discriminate.
Defined.

Lemma handle_keeps_AppStep_witness :
  App.isAppStep (App.step (App.handle App.GoBack App.initial))
  ∧ App.isAppStep
      (App.step (App.handle (App.ConfirmAssessment GeminiService.Failed) App.initial)).
Proof. split; apply handle_keeps_AppStep; by left. Defined.

Lemma invariant_up_to_stale_selection_witness :
  ∃ l, Live.run Live.initial LiveSamples.searchedAgain = Some l
       ∧ App.step (Live.cells l) = App.SELECT_VIDEO
       ∧ App.invariant (Live.cells l)
       ∧ ∀ l', Live.act (Live.SelectVideo 4) l = Some l' →
           App.selectedVideoListed (Live.cells l').
Proof.
  eexists. split; [computed|]. split; [reflexivity|].
  match goal with |- App.invariant (Live.cells ?l) ∧ _ =>
    destruct (invariant_up_to_stale_selection LiveSamples.searchedAgain l
                ltac:(computed)) as (_ & Hv & _ & Hinv & Hkeep)
  end.
  match goal with |- App.invariant ?s ∧ _ => assert (App.invariant s) as Hall end.
  { apply Hinv. split.
    - intros v Hsel. vm_compute in Hsel. simplify_eq.
      exists 2%nat. split; [reflexivity|]. vm_compute. lia.
    - intros a Hsel. vm_compute in Hsel. discriminate. }
  split; [exact Hall|].
  intros l' Hact. destruct (Hkeep _ _ Hact) as [Hvideo _].
  apply Hvideo; [discriminate|]. apply Hall.
Defined.

Lemma session_lists_numbered_witness :
  ∃ l, Live.run Live.initial LiveSamples.resetWhileAwaiting = Some l
       ∧ App.step (Live.cells l) = App.SELECT_ASSESSMENT
       ∧ videosNumbered (App.videos (Live.cells l))
       ∧ assessmentsNumbered (App.assessments (Live.cells l)).
Proof.
  eexists. split; [computed|]. split; [reflexivity|].
  match goal with |- videosNumbered (App.videos (Live.cells ?l)) ∧ _ =>
    apply (session_lists_numbered LiveSamples.resetWhileAwaiting l)
  end.
  computed.
Defined.

Lemma session_one_request_witness :
  ∃ l, Live.run Live.initial LiveSamples.awaitingAnalysis = Some l
       ∧ Live.pending l = [Live.Analysis]
       ∧ Live.exclusive l
       ∧ App.lessonPlan (Live.cells l) = [].
Proof.
  eexists. split; [computed|]. split; [reflexivity|].
  match goal with |- Live.exclusive ?l ∧ _ =>
    destruct (session_one_request LiveSamples.awaitingAnalysis l ltac:(computed))
      as (Hex & _ & Hpend & _)
  end.
  split; [exact Hex|]. apply Hpend. discriminate.
Defined.

Lemma session_one_card_selected_witness :
  ∃ l, Live.run Live.initial LiveSamples.secondSelected = Some l
       ∧ length (filter (λ v, Cards.isSelected (App.selectedVideo (Live.cells l)) v
                              = true)
                   (App.videos (Live.cells l))) = 1%nat.
Proof.
  eexists. split; [computed|].
  match goal with |- length (filter _ (App.videos (Live.cells ?l))) = _ =>
    destruct (session_one_card_selected LiveSamples.secondSelected l ltac:(computed))
      as (_ & Hone)
  end.
  eapply Hone; [reflexivity|].
  eexists. split; [|reflexivity]. right. left.
Defined.

Lemma empty_analysis_dead_end_witness :
  ∃ s, Samples.selected = Some s
       ∧ App.step (App.handleVideoSelect GeminiService.NoText s) = App.SELECT_ASSESSMENT
       ∧ App.assessments (App.handleVideoSelect GeminiService.NoText s) = []
       ∧ App.enabled (App.handleVideoSelect GeminiService.NoText s)
           (App.ConfirmAssessment GeminiService.Failed) = false.
Proof.
  eexists. split; [computed|].
  match goal with |- App.step (App.handleVideoSelect _ ?s) = _ ∧ _ =>
    destruct (empty_analysis_dead_end GeminiService.NoText
                (GeminiService.mkAnalysis None []) s)
      as (Hstep & Hnone & _ & Honly);
      [by eexists|reflexivity|reflexivity|reflexivity|]
  end.
  split_and!; [done|done|].
  destruct (App.enabled _ (App.ConfirmAssessment GeminiService.Failed)) eqn:He;
    [|reflexivity].
  destruct (Honly _ He) as [Habs|[c Habs]]; discriminate.
Defined.

Lemma session_indicator_witness :
  ∃ l, Live.run Live.initial LiveSamples.resetWhileAwaiting = Some l
       ∧ StepIndicator.look <$> StepIndicator.render (App.step (Live.cells l))
         = [StepIndicator.Completed; StepIndicator.Completed;
            StepIndicator.Current; StepIndicator.Upcoming].
Proof.
  eexists. split; [computed|].
  match goal with |- _ <$> StepIndicator.render (App.step (Live.cells ?l)) = _ =>
    destruct (session_indicator LiveSamples.resetWhileAwaiting l ltac:(computed))
      as [Hlook _]
  end.
  rewrite Hlook. reflexivity.
Defined.

Lemma styledHtml_without_tables_witness :
  DocsExport.styledHtml MoreSamples.paragraph
  = DocsExport.wrapperOpen ++ MoreSamples.paragraph ++ DocsExport.wrapperClose.
Proof. apply styledHtml_without_tables. computed. Defined.


Lemma reset_does_not_cancel_witness :
  ∃ l, Live.run Live.initial LiveSamples.awaitingAnalysis = Some l
       ∧ ∃ s', Live.run l [Live.Reset true;
                           Live.AnalysisSettles
                             (GeminiService.Parsed (VObj Samples.threeAssessments))]
               = Some (Live.mkSession s' [])
               ∧ App.step s' = App.SELECT_ASSESSMENT
               ∧ App.videos s' = [] ∧ App.selectedVideo s' = None.
Proof.
  eexists. split; [computed|].
  match goal with |- ∃ s', Live.run ?l _ = _ ∧ _ =>
    destruct (reset_does_not_cancel (Live.cells l)) as [Hanalysis _]; [reflexivity|]
  end.
  destruct (Hanalysis (GeminiService.Parsed (VObj Samples.threeAssessments)) _
              ltac:(computed)) as (s' & Hrun & Hstep & Hvs & Hsel & _).
  exists s'. split; [exact Hrun|]. done.
Defined.

Lemma goBack_after_forward_witness :
  App.goBack
    (App.handleTopicSubmit (GeminiService.Text (Some Samples.oneBlock))
       (App.setTopic (js "t") App.initial))
  = App.setVideos (GeminiService.parseVideoResponse Samples.oneBlock)
      (App.setTopic (js "t") App.initial).
Proof.
  destruct (goBack_after_forward (App.setTopic (js "t") App.initial))
    as (Hsubmit & _); [reflexivity|reflexivity|].
  rewrite Hsubmit; [|reflexivity|computed]. computed.
Defined.
